(** * WSearch: the orchestration logic of [app_logic.js]

    A shallow embedding of the Wordle-solver front end: the word and
    pattern codecs, the best-guess selection around the scoring kernel,
    the feedback handler around the filtering kernel, and the set-up of the
    WASM memory blocks.

    Conventions of the embedding.
    - A JavaScript number that the code uses as an integer is an
      [option Z]: [None] is [NaN] (what [charCodeAt] gives past the end of
      a string and what arithmetic on [undefined] gives).
    - A score read from the [Float64Array] is a [float64]: [NaN], the two
      infinities, or a finite value.  The code only compares scores, so a
      finite double is represented by the rational it denotes.
    - A JavaScript string is a [string]; the words of the game are ASCII.
    - The WASM heap is modelled block by block: each pointer of [WASM_PTR]
      names the contents of the block that [_malloc] returned for it.  A
      view of a table reads on past the block, in what the heap holds
      there, which is a parameter; it raises only outside the heap.
    - The two exported kernels ([_cpp_calculate_scores_wasm],
      [_cpp_filter_candidates_wasm]) and the constants of
      [wordle_solver_data.js] are not part of [app_logic.js]; they are the
      operations of a class and the fields of a record. *)

From Stdlib Require Import ZArith QArith Lia Lqa String Ascii.
From stdpp Require Import base list strings numbers sorting.

Open Scope Z_scope.

(** ** Helper functions: the word codec *)

Module Codec.

(** [word.charCodeAt(i)]: the code unit at [i], [NaN] past the end. *)
Definition charCodeAt (word : string) (i : nat) : option Z :=
  c ← String.get i word; Some (Z.of_nat (nat_of_ascii c)).

(** [LETTERS[charInt]] followed by [word += ...]: a missing property is
    [undefined], which string concatenation spells out. *)
Definition lettersAt (LETTERS : list string) (charInt : option Z) : string :=
  match charInt with
  | Some z =>
      if 0 <=? z then default "undefined"%string (LETTERS !! Z.to_nat z)
      else "undefined"%string
  | None => "undefined"%string
  end.

Definition intVecToString (LETTERS : list string) (intArray : list (option Z)) : string :=
  foldl (fun word charInt => word +:+ lettersAt LETTERS charInt) ""%string intArray.

Definition baseCharCode : option Z := charCodeAt "A" 0.

Definition stringToIntVec (word : string) : list (option Z) :=
  foldl (fun ints i =>
           ints ++ [c ← charCodeAt word i; b ← baseCharCode; Some (c - b + 1)])
        [] (seq 0 5).

(** The letter that the doc comments of both functions give to the
    integer [k] (1 is A, 26 is Z). *)
Definition letterOf (k : nat) : string :=
  String (ascii_of_nat (64 + k)) EmptyString.

(** The contract on the imported [LETTERS] table that the doc comment of
    [intVecToString] relies on: entry [k] is the [k]-th capital letter,
    for [k] from 1 to 26.  Entry 0 is left free. *)
Definition lettersOk (LETTERS : list string) : bool :=
  forallb (fun k => bool_decide (LETTERS !! k = Some (letterOf k))) (seq 1 26).

Definition isUpper (c : ascii) : bool :=
  (65 <=? nat_of_ascii c)%nat && (nat_of_ascii c <=? 90)%nat.

(** A word of exactly five capital letters. *)
Definition isWord (word : string) : bool :=
  (String.length word =? 5)%nat && forallb isUpper (list_ascii_of_string word).

(** A vector of exactly five integers between 1 and 26. *)
Definition isIntVec (v : list Z) : bool :=
  (length v =? 5)%nat && forallb (fun z => (1 <=? z) && (z <=? 26)) v.

End Codec.

(** ** Helper functions: the pattern encoding *)

Module Pattern.

(** [COLOR_MAP[key]]; [None] is [undefined]. *)
Definition COLOR_MAP (key : string) : option Z :=
  if String.eqb key "_" then Some 0
  else if String.eqb key "Y" then Some 1
  else if String.eqb key "G" then Some 2
  else None.

Definition weights : list Z := [1; 3; 9; 27; 81].

(** [pattern += COLOR_MAP[fbArray[i]] * weights[i]] for [i] from 0 to 4.
    A slot that is missing or is no key of [COLOR_MAP] makes the sum [NaN]. *)
Definition encodePattern (fbArray : list string) : option Z :=
  foldl (fun pattern i =>
           p ← pattern; c ← (fbArray !! i) ≫= COLOR_MAP; w ← weights !! i;
           Some (p + c * w))
        (Some 0) (seq 0 5).

(** The three feedback colours and the tile keys that stand for them. *)
Inductive Color := Absent | Present | Correct.

Definition colorKey (c : Color) : string :=
  match c with Absent => "_" | Present => "Y" | Correct => "G" end.

Definition colorValue (c : Color) : Z :=
  match c with Absent => 0 | Present => 1 | Correct => 2 end.

(** A feedback pattern: five slots. *)
Record FeedbackPattern := mkPattern { slot0 : Color; slot1 : Color; slot2 : Color; slot3 : Color; slot4 : Color }.

Definition toArray (p : FeedbackPattern) : list string :=
  [colorKey (slot0 p); colorKey (slot1 p); colorKey (slot2 p);
   colorKey (slot3 p); colorKey (slot4 p)].

(** Sum of slot value times positional weight. *)
Definition weightedSum (p : FeedbackPattern) : Z :=
  colorValue (slot0 p) * 1 + colorValue (slot1 p) * 3 + colorValue (slot2 p) * 9
  + colorValue (slot3 p) * 27 + colorValue (slot4 p) * 81.

Definition colorOfDigit (d : Z) : Color :=
  if d =? 0 then Absent else if d =? 1 then Present else Correct.

(** The inverse of the encoding: the base-3 digits of a code. *)
Definition decodePattern (n : Z) : FeedbackPattern :=
  mkPattern (colorOfDigit (n mod 3)) (colorOfDigit (n / 3 mod 3))
            (colorOfDigit (n / 9 mod 3)) (colorOfDigit (n / 27 mod 3))
            (colorOfDigit (n / 81 mod 3)).

End Pattern.

(** ** Scores: the values of a [Float64Array] under comparison *)

Module F64.

Inductive float64 := NaN | NegInfinity | Finite (q : Q) | Infinity.

(** [a < b] *)
Definition ltb (a b : float64) : bool :=
  match a, b with
  | NaN, _ | _, NaN => false
  | NegInfinity, NegInfinity => false
  | NegInfinity, _ => true
  | Finite _, NegInfinity => false
  | Finite p, Finite q => negb (Qle_bool q p)
  | Finite _, Infinity => true
  | Infinity, _ => false
  end.

(** [a === b] *)
Definition eqb (a b : float64) : bool :=
  match a, b with
  | NegInfinity, NegInfinity => true
  | Finite p, Finite q => Qeq_bool p q
  | Infinity, Infinity => true
  | _, _ => false
  end.

(** [a <= b] *)
Definition leb (a b : float64) : bool := ltb a b || eqb a b.

(** [Math.max(...xs)]: [-Infinity] for no argument, [NaN] as soon as one
    argument is [NaN], the largest argument otherwise. *)
Definition maxStep (acc x : float64) : float64 :=
  match acc, x with
  | NaN, _ | _, NaN => NaN
  | _, _ => if ltb acc x then x else acc
  end.

Definition mathMax (xs : list float64) : float64 := foldl maxStep NegInfinity xs.

Definition isNaN (x : float64) : bool :=
  match x with NaN => true | _ => false end.

End F64.

Abbreviation float64 := F64.float64.

(** ** The imported constants and the WASM module *)

(** The constants imported from [wordle_solver_data.js]. *)
Record WordleData := mkData {
  ALL_GUESSES_FLAT : list Z;
  N_TOTAL_GUESSES : nat;
  IS_POSSIBLE_ANSWER_MASK : list Z;
  INITIAL_CANDIDATE_START_POSITIONS : list Z;
  LETTERS : list string
}.

(** The places of the heap from which the script reads the tables: the start
    of the heap, the guess-table block and the mask block. *)
Inductive Pointer := NullPtr | GuessesFlatPtr | IsPossibleAnswerPtr.

(** The two kernels exported by the WASM module, and its heap around the
    blocks.  A pointer argument is rendered as the contents of the block it
    points to; a block that the kernel writes is rendered as the contents it
    leaves there.

    - [_cpp_calculate_scores_wasm guesses n_guesses candidates n_cands
      is_minimax] is the content of the score block after the call.
    - [_cpp_filter_candidates_wasm guess pattern all_guesses old_cands
      n_old new_cands] is the returned count and the content of the
      [new_cands] block after the call.
    - [HEAP32_outside ptr k] is what a view finds in [Module.HEAP32] at the
      cell [k] integers from [ptr] when that cell is not in the block of
      [ptr]: the integer there, or [None] when the cell is outside the heap
      buffer.  What lies around a block depends on the allocator and on the
      rest of the heap, which the script does not determine.  A run of a
      handler makes at most one view from each of the three places, so one
      function stands for what the views of the run find. *)
Class WasmModule := {
  _cpp_calculate_scores_wasm :
    list Z -> nat -> list Z -> nat -> Z -> (nat -> float64);
  _cpp_filter_candidates_wasm :
    list Z -> Z -> list Z -> list Z -> nat -> list Z -> Z * list Z;
  HEAP32_outside : Pointer -> Z -> option Z
}.

(** ** State *)

(** The [STATE] object. *)
Record State := mkState {
  currentCandidates : list Z;
  currentGuessWord : string;
  feedbackState : list string;
  history : list (string * list string);
  gameOver : bool;
  isCalculating : bool
}.

(** The blocks named by [WASM_PTR]. *)
Record Heap := mkHeap {
  guessesFlat : list Z;
  isPossibleAnswer : list Z;
  currentCandidatesA : list Z;
  currentCandidatesB : list Z;
  scores : nat -> float64;
  guessWordVec : list Z
}.

(** A record of one kernel call, with the arguments that vary. *)
Inductive KernelCall :=
| CalculateScores (candidates : list Z) (nCand : nat) (isMinimax : Z)
| FilterCandidates (guess : list Z) (pattern : Z) (oldCands : list Z) (nOld : nat).

(** The program state: [STATE], the heap blocks, and the kernel calls made
    so far, oldest first. *)
Record World := mkWorld {
  STATE : State;
  HEAP : Heap;
  calls : list KernelCall
}.

(** How a function ends other than by returning.  [RangeError]: a view of
    the tables that does not lie in the heap buffer; the constructor of the
    view raises.  [OutOfBlock]: a copy into a block that the block has no
    room for, or a count of the filtering kernel that is no number of
    entries of its output block; the script then goes on in memory that this
    model does not describe.  [MalformedTable] is the error of the interface
    description; it is listed here so that statements can mention it. *)
Inductive Failure := OutOfBlock | RangeError | MalformedTable.

Inductive Outcome :=
| Returned (w : World)
| Failed (f : Failure) (w : World).

Definition worldOf (o : Outcome) : World :=
  match o with Returned w => w | Failed _ w => w end.

Definition withState (f : State -> State) (w : World) : World :=
  mkWorld (f (STATE w)) (HEAP w) (calls w).

Definition withHeap (f : Heap -> Heap) (w : World) : World :=
  mkWorld (STATE w) (f (HEAP w)) (calls w).

Definition logCall (c : KernelCall) (w : World) : World :=
  mkWorld (STATE w) (HEAP w) (calls w ++ [c]).

Definition setCurrentCandidates (cs : list Z) (s : State) : State :=
  mkState cs (currentGuessWord s) (feedbackState s) (history s) (gameOver s) (isCalculating s).

Definition setCurrentGuessWord (word : string) (s : State) : State :=
  mkState (currentCandidates s) word (feedbackState s) (history s) (gameOver s) (isCalculating s).

Definition setFeedbackState (fb : list string) (s : State) : State :=
  mkState (currentCandidates s) (currentGuessWord s) fb (history s) (gameOver s) (isCalculating s).

Definition pushHistory (entry : string * list string) (s : State) : State :=
  mkState (currentCandidates s) (currentGuessWord s) (feedbackState s) (history s ++ [entry])
          (gameOver s) (isCalculating s).

Definition setGameOver (b : bool) (s : State) : State :=
  mkState (currentCandidates s) (currentGuessWord s) (feedbackState s) (history s) b (isCalculating s).

Definition setIsCalculating (b : bool) (s : State) : State :=
  mkState (currentCandidates s) (currentGuessWord s) (feedbackState s) (history s) (gameOver s) b.

Definition setScores (sc : nat -> float64) (h : Heap) : Heap :=
  mkHeap (guessesFlat h) (isPossibleAnswer h) (currentCandidatesA h) (currentCandidatesB h)
         sc (guessWordVec h).

Definition setGuessWordVec (v : list Z) (h : Heap) : Heap :=
  mkHeap (guessesFlat h) (isPossibleAnswer h) (currentCandidatesA h) (currentCandidatesB h)
         (scores h) v.

Definition setCurrentCandidatesB (b : list Z) (h : Heap) : Heap :=
  mkHeap (guessesFlat h) (isPossibleAnswer h) (currentCandidatesA h) b
         (scores h) (guessWordVec h).

(** [[WASM_PTR.currentCandidatesA, WASM_PTR.currentCandidatesB] =
    [WASM_PTR.currentCandidatesB, WASM_PTR.currentCandidatesA]] *)
Definition swapCandidateBuffers (h : Heap) : Heap :=
  mkHeap (guessesFlat h) (isPossibleAnswer h) (currentCandidatesB h) (currentCandidatesA h)
         (scores h) (guessWordVec h).

(** The view [new Int32Array(Module.HEAP32.buffer, ptr + offset * 4, len)]
    as far as the block of [ptr] goes: the [len] integers from [offset] on,
    when they lie inside the block, which holds [block].  The views of the
    candidate buffer B are of this kind: the filtering kernel returns the
    number of entries that it has written into the block.  Statements use it
    to say that a word or a list lies in its block. *)
Definition Int32Array (block : list Z) (offset : Z) (len : Z) : option (list Z) :=
  if (0 <=? offset) && (0 <=? len) && (offset + len <=? Z.of_nat (length block))
  then Some (take (Z.to_nat len) (drop (Z.to_nat offset) block))
  else None.

(** The conversion of a number to a 32-bit integer when it is stored in
    [HEAP32] or passed to a kernel: [NaN] becomes 0.  The integers of this
    program are far inside the 32-bit range. *)
Definition toInt32 (x : option Z) : Z := default 0 x.

(** The contents of a block fresh from [_malloc].  The code writes every
    cell before it reads it; the model fills a fresh block with zeros. *)
Definition malloc (n : nat) : list Z := repeat 0 n.

(** [Module.HEAP32.set(values, ptr / 4)] for a pointer whose block holds
    [block]: [values] written over the start of the block, when they fit.
    [None]: the block has no room for [values]; the copy then runs on past
    the block, into memory that this model does not describe.  The values
    are stored as they are: the tables and the candidate lists hold 32-bit
    integers. *)
Definition HEAP32_set (values block : list Z) : option (list Z) :=
  if (length values <=? length block)%nat
  then Some (values ++ drop (length values) block)
  else None.

(** ** WASM interaction and calculation *)

Section AppLogic.

Context {Module : WasmModule} (DATA : WordleData).

(** The cell of [Module.HEAP32] at [k] integers from [ptr], whose block holds
    [block]: a cell of the block, or what the heap holds around it. *)
Definition heapCell (ptr : Pointer) (block : list Z) (k : Z) : option Z :=
  if (0 <=? k) && (k <? Z.of_nat (length block)) then block !! Z.to_nat k
  else HEAP32_outside ptr k.

(** [new Int32Array(Module.HEAP32.buffer, ptr + offset * 4, len)] for a view
    of the tables: the [len] cells from [offset] on, inside the block of
    [ptr] or not.  [None]: the length is negative or a cell is outside the
    heap buffer, and the constructor raises a [RangeError]. *)
Definition heapView (ptr : Pointer) (block : list Z) (offset len : Z) : option (list Z) :=
  if len <? 0 then None else mapM (heapCell ptr block) (seqZ offset len).

(** The call of the scoring kernel as every call site writes it: on the
    guess table and the candidate buffer A, leaving its result in the score
    block. *)
Definition callCalculateScores (nCand : nat) (isMinimax : Z) (w : World) : World :=
  let h := HEAP w in
  logCall (CalculateScores (currentCandidatesA h) nCand isMinimax)
    (withHeap (setScores (_cpp_calculate_scores_wasm (guessesFlat h) (N_TOTAL_GUESSES DATA)
                            (currentCandidatesA h) nCand isMinimax)) w).

(** Step 2 of [calculateBestGuess]: one pass over the score array that
    keeps the extremal score and every index attaining it. *)
Definition bestStep (useMinimax : bool) (scoresArray : nat -> float64)
    (acc : float64 * list nat) (i : nat) : float64 * list nat :=
  let '(bestScore, bestIndices) := acc in
  let score := scoresArray i in
  if useMinimax then
    if F64.ltb score bestScore then (score, [i])
    else if F64.eqb score bestScore then (bestScore, bestIndices ++ [i])
    else (bestScore, bestIndices)
  else
    if F64.ltb bestScore score then (score, [i])
    else if F64.eqb score bestScore then (bestScore, bestIndices ++ [i])
    else (bestScore, bestIndices).

Definition findBest (useMinimax : bool) (scoresArray : nat -> float64) : float64 * list nat :=
  foldl (bestStep useMinimax scoresArray)
        (if useMinimax then F64.Infinity else F64.NegInfinity, [])
        (seq 0 (N_TOTAL_GUESSES DATA)).

(** Step 1 and 2: the choice of the primary metric, the primary call of
    the kernel and the indices with the best primary score. *)
Definition primaryPass (w : World) : World * bool * list nat :=
  let nCand := length (currentCandidates (STATE w)) in
  let useMinimax := (nCand <? 31)%nat in
  let isMinimax := if useMinimax then 1 else 0 in
  let w1 := withState (setIsCalculating true) w in
  let w2 := callCalculateScores nCand isMinimax w1 in
  let scoresArray := scores (HEAP w2) in
  (w2, useMinimax, snd (findBest useMinimax scoresArray)).

(** Step 3.A: the tie-breaker with entropy. *)
Definition entropyTieBreak (nCand : nat) (useMinimax : bool) (bestIndices : list nat)
    (w : World) : World * list nat :=
  if (1 <? length bestIndices)%nat && useMinimax then
    let w' := callCalculateScores nCand 0 w in
    let entropyScores := scores (HEAP w') in
    let subsetScores := entropyScores <$> bestIndices in
    let maxEntropy := F64.mathMax subsetScores in
    (w', fst <$> List.filter (fun '(_, s) => F64.eqb s maxEntropy)
                             (zip bestIndices subsetScores))
  else (w, bestIndices).

(** Step 3.B: the tie-breaker that prefers possible answers.  [None] when
    the view of the mask does not lie in the heap. *)
Definition answerTieBreak (bestIndices : list nat) (w : World) : option (list nat) :=
  if (1 <? length bestIndices)%nat then
    possibleAnswerMask ← heapView IsPossibleAnswerPtr (isPossibleAnswer (HEAP w)) 0
                           (Z.of_nat (N_TOTAL_GUESSES DATA));
    let answerIndices :=
      List.filter (fun i => bool_decide (possibleAnswerMask !! i = Some 1)) bestIndices in
    Some (if (0 <? length answerIndices)%nat then answerIndices else bestIndices)
  else Some bestIndices.

(** Step 4: the first of the surviving indices and its word.  With no
    surviving index the index is [undefined], the byte offset is [NaN] and
    the view starts at the first cell of the heap. *)
Definition finalGuessSelection (bestIndices : list nat) (w : World) : Outcome :=
  let wordView :=
    match head bestIndices with
    | Some finalGuessIndex =>
        let wordStartPos := Z.of_nat finalGuessIndex * 5 in
        heapView GuessesFlatPtr (guessesFlat (HEAP w)) wordStartPos 5
    | None => heapView NullPtr [] 0 5
    end in
  match wordView with
  | Some wordInts =>
      Returned (withState (setIsCalculating false)
                 (withState (setCurrentGuessWord
                               (Codec.intVecToString (LETTERS DATA) (Some <$> wordInts))) w))
  | None => Failed RangeError w
  end.

Definition calculateBestGuess (w : World) : Outcome :=
  match currentCandidates (STATE w) with
  | [startPos] =>
      match heapView GuessesFlatPtr (guessesFlat (HEAP w)) startPos 5 with
      | Some wordInts =>
          Returned (withState (setCurrentGuessWord
                                 (Codec.intVecToString (LETTERS DATA) (Some <$> wordInts))) w)
      | None => Failed RangeError w
      end
  | _ =>
      let nCand := length (currentCandidates (STATE w)) in
      let '(w2, useMinimax, bestIndices) := primaryPass w in
      let '(w3, bestIndices) := entropyTieBreak nCand useMinimax bestIndices w2 in
      match answerTieBreak bestIndices w3 with
      | Some bestIndices => finalGuessSelection bestIndices w3
      | None => Failed RangeError w3
      end
  end.

(** ** Event handlers *)

Definition allGreen (fb : list string) : bool :=
  forallb (fun c => String.eqb c "G") fb.

(** The guard on the event: a keyboard event with a key other than Enter
    is ignored; a click has no key. *)
Definition ignoredKey (key : option string) : bool :=
  match key with
  | Some k => negb (String.eqb k "") && negb (String.eqb k "Enter")
  | None => false
  end.

(** Step 3 of [handleSubmitFeedback]: the guess vector is stored in its
    block (which has room for exactly the five integers that
    [stringToIntVec] returns) and the filtering kernel writes buffer B. *)
Definition filterCandidates (w : World) : Z * World :=
  let patternInt := Pattern.encodePattern (feedbackState (STATE w)) in
  let oldCandCount := length (currentCandidates (STATE w)) in
  let guessIntVec := Codec.stringToIntVec (currentGuessWord (STATE w)) in
  let w1 := withHeap (setGuessWordVec (toInt32 <$> guessIntVec)) w in
  let h := HEAP w1 in
  let '(remainingCount, newB) :=
    _cpp_filter_candidates_wasm (guessWordVec h) (toInt32 patternInt) (guessesFlat h)
      (currentCandidatesA h) oldCandCount (currentCandidatesB h) in
  (remainingCount,
   logCall (FilterCandidates (guessWordVec h) (toInt32 patternInt) (currentCandidatesA h) oldCandCount)
     (withHeap (setCurrentCandidatesB newB) w1)).

(** Step 4 and 5: the three cases on the remaining count.  With the count 1
    the game-over flag is set before the two views are made, and the word is
    read wherever the entry times 5 points, in the guess table or not. *)
Definition updateCandidateState (remainingCount : Z) (w : World) : Outcome :=
  if remainingCount =? 0 then
    Returned (withState (setFeedbackState ["E"; "R"; "R"; "O"; "R"]%string)
               (withState (setCurrentGuessWord "ERROR")
                 (withState (setGameOver true) w)))
  else if remainingCount =? 1 then
    let w1 := withState (setGameOver true) w in
    match Int32Array (currentCandidatesB (HEAP w1)) 0 1 with
    | Some [finalWordIndex] =>
        let wordStartPos := finalWordIndex * 5 in
        match heapView GuessesFlatPtr (guessesFlat (HEAP w1)) wordStartPos 5 with
        | Some wordInts =>
            Returned (withState (setFeedbackState ["G"; "G"; "G"; "G"; "G"]%string)
                       (withState (setCurrentGuessWord
                                     (Codec.intVecToString (LETTERS DATA) (Some <$> wordInts))) w1))
        | None => Failed RangeError w1
        end
    | _ => Failed OutOfBlock w1
    end
  else
    match Int32Array (currentCandidatesB (HEAP w)) 0 remainingCount with
    | Some newCandidatesIndices =>
        let w1 := withState (setCurrentCandidates newCandidatesIndices) w in
        let w2 := withHeap swapCandidateBuffers w1 in
        match calculateBestGuess w2 with
        | Returned w3 =>
            Returned (withState (setFeedbackState ["_"; "_"; "_"; "_"; "_"]%string) w3)
        | Failed f w3 => Failed f w3
        end
    | None => Failed OutOfBlock w
    end.

(** [handleSubmitFeedback(event)], with [key] the key of the event if it has
    one.  The class instance is the loaded module, so the check that the
    module is ready passes.  [calculateBestGuess] contains no [await]: the
    call in the last case runs to its end before the handler is suspended,
    and the rest of the handler is the next thing to run. *)
Definition handleSubmitFeedback (key : option string) (w : World) : Outcome :=
  if ignoredKey key then Returned w
  else if gameOver (STATE w) || isCalculating (STATE w) then Returned w
  else
    let w1 := withState (pushHistory (currentGuessWord (STATE w), feedbackState (STATE w))) w in
    if allGreen (feedbackState (STATE w1)) then
      Returned (withState (setGameOver true) w1)
    else
      let '(remainingCount, w2) := filterCandidates w1 in
      updateCandidateState remainingCount w2.

Definition setCurrentCandidatesA (a : list Z) (h : Heap) : Heap :=
  mkHeap (guessesFlat h) (isPossibleAnswer h) a (currentCandidatesB h)
         (scores h) (guessWordVec h).

(** [handleResetApp]: the state goes back to its initial conditions and the
    initial candidates are copied into buffer A. *)
Definition handleResetApp (w : World) : Outcome :=
  let w1 :=
    withState (fun s => mkState (INITIAL_CANDIDATE_START_POSITIONS DATA) "SOARE"
                                ["_"; "_"; "_"; "_"; "_"]%string [] false (isCalculating s)) w in
  match HEAP32_set (currentCandidates (STATE w1)) (currentCandidatesA (HEAP w1)) with
  | Some bufA => Returned (withHeap (setCurrentCandidatesA bufA) w1)
  | None => Failed OutOfBlock w1
  end.

(** ** Initialization *)

(** The [STATE] object as the script declares it. *)
Definition initialState : State :=
  mkState [] "SOARE" ["_"; "_"; "_"; "_"; "_"]%string [] false false.

(** [WASM_PTR] before any allocation: no block. *)
Definition initialHeap : Heap :=
  mkHeap [] [] [] [] (fun _ => F64.Finite 0) [].

Definition initialWorld : World := mkWorld initialState initialHeap [].

Definition initializeWasmMemory (w : World) : Outcome :=
  let nTotal := N_TOTAL_GUESSES DATA in
  match HEAP32_set (ALL_GUESSES_FLAT DATA) (malloc (length (ALL_GUESSES_FLAT DATA))),
        HEAP32_set (IS_POSSIBLE_ANSWER_MASK DATA) (malloc (length (IS_POSSIBLE_ANSWER_MASK DATA))),
        HEAP32_set (INITIAL_CANDIDATE_START_POSITIONS DATA) (malloc nTotal) with
  | Some flat, Some mask, Some bufA =>
      Returned
        (withState (setCurrentCandidates (INITIAL_CANDIDATE_START_POSITIONS DATA))
          (withHeap (fun h => mkHeap flat mask bufA (malloc nTotal) (fun _ => F64.Finite 0) (malloc 5)) w))
  | _, _, _ => Failed OutOfBlock w
  end.

(** [runInitialization], without the display updates and the listeners. *)
Definition runInitialization (w : World) : Outcome :=
  match initializeWasmMemory w with
  | Returned w1 => calculateBestGuess w1
  | Failed f w1 => Failed f w1
  end.

End AppLogic.

(** ** Tile clicks *)

(** [array.indexOf(x)]: the first position of [x], counted from [i], or -1. *)
Fixpoint indexOfFrom (array : list string) (x : string) (i : Z) : Z :=
  match array with
  | [] => -1
  | y :: rest => if String.eqb y x then i else indexOfFrom rest x (i + 1)
  end.

Definition indexOf (array : list string) (x : string) : Z := indexOfFrom array x 0.

Definition cycle : list string := ["_"; "Y"; "G"]%string.

(** [nextColor(current)].  The index [(idx + 1) % cycle.length] is 0, 1 or 2,
    so the lookup never gives [undefined]. *)
Definition nextColor (current : string) : string :=
  let idx := indexOf cycle current in
  default "undefined"%string
          (cycle !! Z.to_nat (Z.rem (idx + 1) (Z.of_nat (length cycle)))).

(** [handleTileClick(event)], with [index] the index that the clicked tile
    carries ([updateGuessDisplay] gives the tiles the indices 0 to 4).
    [None]: [index] is no slot of the feedback array; the assignment would
    then grow the array and leave holes, which this model does not
    describe. *)
Definition handleTileClick (index : nat) (w : World) : option World :=
  if gameOver (STATE w) then Some w
  else
    currentColor ← feedbackState (STATE w) !! index;
    let newColor := nextColor currentColor in
    Some (withState (setFeedbackState (<[index := newColor]> (feedbackState (STATE w)))) w).

(** A series of clicks, one after the other. *)
Definition clickTiles (indices : list nat) (w : World) : option World :=
  foldl (fun ow index => ow ≫= handleTileClick index) (Some w) indices.

(** ** The candidate-set manager of the interface description *)

Module Manager.



Definition Solved (s : State) : Prop :=
  gameOver s = true /\ allGreen (feedbackState s) = true.


(** The two ways the code turns a candidate entry into a word of the flat
    table: as the start position of the word, and as the index of the
    word. *)
Definition wordAtStartPosition (flat : list Z) (startPos : Z) : option (list Z) :=
  Int32Array flat startPos 5.

Definition wordAtIndex (flat : list Z) (index : Z) : option (list Z) :=
  Int32Array flat (index * 5) 5.

(** The parts of the state that only the handlers write. *)
Definition sameGame (w w' : World) : Prop :=
  currentCandidates (STATE w') = currentCandidates (STATE w)
  /\ feedbackState (STATE w') = feedbackState (STATE w)
  /\ history (STATE w') = history (STATE w)
  /\ gameOver (STATE w') = gameOver (STATE w)
  /\ guessesFlat (HEAP w') = guessesFlat (HEAP w)
  /\ isPossibleAnswer (HEAP w') = isPossibleAnswer (HEAP w)
  /\ currentCandidatesA (HEAP w') = currentCandidatesA (HEAP w)
  /\ currentCandidatesB (HEAP w') = currentCandidatesB (HEAP w).

(** The order of the primary metric: minimax scores are better when
    lower, entropy scores when higher. *)
Definition better (useMinimax : bool) (x y : float64) : bool :=
  if useMinimax then F64.ltb x y else F64.ltb y x.

Definition noWorse (useMinimax : bool) (x y : float64) : bool :=
  if useMinimax then F64.leb x y else F64.leb y x.

(** The score that the search for the best score starts from. *)
Definition worst (useMinimax : bool) : float64 :=
  if useMinimax then F64.Infinity else F64.NegInfinity.

(** The index [i] attains the extremal score among the first [n] scores:
    its score is a number and is no worse than every score that is a
    number. *)
Definition extremal (useMinimax : bool) (scoresArray : nat -> float64) (n i : nat) : Prop :=
  (i < n)%nat
  /\ F64.isNaN (scoresArray i) = false
  /\ forall j, (j < n)%nat -> F64.isNaN (scoresArray j) = false ->
               noWorse useMinimax (scoresArray i) (scoresArray j) = true.

(** The state of the search after the first [k] scores. *)
Definition bestInv (useMinimax : bool) (scoresArray : nat -> float64) (k : nat)
    (acc : float64 * list nat) : Prop :=
  F64.isNaN (fst acc) = false
  /\ (forall j, (j < k)%nat -> F64.isNaN (scoresArray j) = false ->
                noWorse useMinimax (fst acc) (scoresArray j) = true)
  /\ (fst acc = worst useMinimax \/ exists j, (j < k)%nat /\ fst acc = scoresArray j)
  /\ (forall i, i ∈ snd acc <-> (i < k)%nat /\ F64.eqb (scoresArray i) (fst acc) = true)
  /\ StronglySorted lt (snd acc).

End Manager.

(** ** A kernel for worked examples *)

Module Kernel.

(** Modelled from the spec: the pool of pass 1 of the feedback rule (the
    WASM kernel, [wordle_solver.js], is not among the sources).  The pool
    holds the letters of the secret at the slots where guess and secret
    differ. *)
Definition pool (guess secret : list Z) : list Z :=
  snd <$> List.filter (fun '(g, s) => negb (g =? s)) (zip guess secret).

(** Modelled from the spec: taking one instance of a letter out of the
    pool, [None] when the pool has none left. *)
Fixpoint removeOne (x : Z) (letters : list Z) : option (list Z) :=
  match letters with
  | [] => None
  | y :: rest => if x =? y then Some rest else cons y <$> removeOne x rest
  end.

(** Modelled from the spec: the feedback rule of the missing kernel.  A slot
    where guess and secret agree is Correct (2); the other slots are gone
    through from the left, and a slot is Present (1) when its letter is still
    in the pool, which loses one instance, and Absent (0) otherwise. *)
Definition simulate (guess secret : list Z) : list Z :=
  snd (foldl (fun '(p, out) '(g, s) =>
                if g =? s then (p, out ++ [2])
                else match removeOne g p with
                     | Some p' => (p', out ++ [1])
                     | None => (p, out ++ [0])
                     end)
             (pool guess secret, []) (zip guess secret)).

(** Modelled from the spec: the base-3 code of a simulated pattern, with the
    weights 1, 3, 9, 27, 81. *)
Definition encode (colors : list Z) : Z :=
  foldr (fun c acc => c + 3 * acc) 0 colors.

(** Modelled from the spec: the missing filtering kernel.  It keeps, in
    order, the candidates whose simulated pattern has the observed code,
    writes them at the start of the output block and returns their number.
    [wordOf] is the way a candidate entry designates its word. *)
Definition filter_candidates (wordOf : list Z -> Z -> option (list Z))
    (guess : list Z) (pattern : Z) (all_guesses old_cands : list Z) (n_old : nat)
    (new_cands : list Z) : Z * list Z :=
  let kept :=
    List.filter (fun c => match wordOf all_guesses c with
                          | Some secret => encode (simulate guess secret) =? pattern
                          | None => false
                          end)
                (take n_old old_cands) in
  (Z.of_nat (length kept), kept ++ drop (length kept) new_cands).

(** The scoring kernel is missing as well.  The examples need its results
    only, which are recorded in two score vectors, one per metric. *)
Definition recorded_scores (minimax entropy : list float64)
    (guesses : list Z) (n_guesses : nat) (candidates : list Z) (n_cands : nat)
    (is_minimax : Z) : nat -> float64 :=
  fun i => default F64.NaN ((if is_minimax =? 0 then entropy else minimax) !! i).

(** The module of the examples: candidate entries are start positions, and
    the heap around the blocks holds zeros. *)
Definition example (minimax entropy : list float64) : WasmModule :=
  {| _cpp_calculate_scores_wasm := recorded_scores minimax entropy;
     _cpp_filter_candidates_wasm := filter_candidates Manager.wordAtStartPosition;
     HEAP32_outside := fun _ _ => Some 0 |}.

End Kernel.

(** ** A six-word game *)

Module Example.

Definition wordInts (word : string) : list Z := toInt32 <$> Codec.stringToIntVec word.

Definition letters : list string := ""%string :: (Codec.letterOf <$> seq 1 26).

(** Six guesses; the three at start positions 5, 10 and 15 are possible
    answers. *)
Definition data : WordleData :=
  {| ALL_GUESSES_FLAT :=
       wordInts "SOARE" ++ wordInts "CRANE" ++ wordInts "SLATE"
       ++ wordInts "TRACE" ++ wordInts "ADIEU" ++ wordInts "ROATE";
     N_TOTAL_GUESSES := 6;
     IS_POSSIBLE_ANSWER_MASK := [0; 1; 1; 1; 0; 0];
     INITIAL_CANDIDATE_START_POSITIONS := [5; 10; 15];
     LETTERS := letters |}.

Definition minimaxScores : list float64 :=
  F64.Finite <$> [1; 1; 1; 1; 3; 1]%Q.

Definition entropyScores : list float64 :=
  F64.Finite <$> [3 # 2; 1; 3 # 2; 3 # 2; 0; 6 # 5]%Q.

Definition module : WasmModule := Kernel.example minimaxScores entropyScores.

(** The game before its first calculation. *)
Definition initialized : World := worldOf (initializeWasmMemory data initialWorld).

(** The game after start-up. *)
Definition started : World :=
  worldOf (runInitialization (Module := module) data initialWorld).

(** The user has marked the tiles of the proposed guess. *)
Definition marked (fb : list string) (w : World) : World :=
  withState (setFeedbackState fb) w.

(** After a reset the proposed guess is SOARE, on the three candidates. *)
Definition afterReset : World := worldOf (handleResetApp data started).

(** The user marks all tiles of SOARE green. *)
Definition soareAllGreen : World :=
  marked ["G"; "G"; "G"; "G"; "G"]%string afterReset.



(** The user answers the first proposal, SLATE, with the feedback that the
    secret CRANE gives: gray, gray, green, gray, green. *)
Definition slateAgainstCrane : World :=
  marked ["_"; "_"; "G"; "_"; "G"]%string started.


(** The same tables with CRANE as the only initial candidate. *)
Definition craneOnly : WordleData :=
  {| ALL_GUESSES_FLAT := ALL_GUESSES_FLAT data;
     N_TOTAL_GUESSES := 6;
     IS_POSSIBLE_ANSWER_MASK := [0; 1; 0; 0; 0; 0];
     INITIAL_CANDIDATE_START_POSITIONS := [5];
     LETTERS := letters |}.

Definition craneOnlyInitialized : World :=
  worldOf (initializeWasmMemory craneOnly initialWorld).


End Example.

(** ** Invariants of the game *)

Module Invariant.

(** The feedback array holds five keys of [COLOR_MAP]. *)
Definition isFeedback (fb : list string) : bool :=
  (length fb =? 5)%nat
  && forallb (fun key => match Pattern.COLOR_MAP key with Some _ => true | None => false end) fb.

(** Buffer A starts with the candidates of [STATE]: what the kernels read
    is what the script holds. *)
Definition candidatesMirrored (w : World) : Prop :=
  take (length (currentCandidates (STATE w))) (currentCandidatesA (HEAP w))
  = currentCandidates (STATE w).

(** A scoring call on the given candidate block and count. *)
Definition scoringCallOn (candidates : list Z) (nCand : nat) (c : KernelCall) : Prop :=
  exists isMinimax, c = CalculateScores candidates nCand isMinimax.

(** The flat table has five integers for each of the guesses and the mask
    block one entry for each. *)
Definition tablesCover (DATA : WordleData) (w : World) : Prop :=
  (0 < N_TOTAL_GUESSES DATA)%nat
  /\ (5 * N_TOTAL_GUESSES DATA <= length (guessesFlat (HEAP w)))%nat
  /\ (N_TOTAL_GUESSES DATA <= length (isPossibleAnswer (HEAP w)))%nat.

(** A 32-bit integer: a value that [HEAP32] stores as it is. *)
Definition int32 (z : Z) : Prop := -2147483648 <= z <= 2147483647.

(** None of the first [n] scores is [NaN]. *)
Definition numbers (scoresArray : nat -> float64) (n : nat) : Prop :=
  forall i, (i < n)%nat -> F64.isNaN (scoresArray i) = false.

(** The world in which the kernel filters: the submission is in the
    history. *)
Definition recorded (w : World) : World :=
  withState (pushHistory (currentGuessWord (STATE w), feedbackState (STATE w))) w.

End Invariant.

(** * Properties *)

(** ** The word codec *)

Module CodecFacts.
Import Codec.

Lemma lettersOk_lookup (LETTERS : list string) (k : nat) :
  lettersOk LETTERS = true -> (1 <= k <= 26)%nat ->
  LETTERS !! k = Some (letterOf k).
Proof.
  intros Hok Hk. unfold lettersOk in Hok.
  rewrite forallb_forall in Hok.
  specialize (Hok k). rewrite bool_decide_eq_true in Hok.
  apply Hok, in_seq. lia.
Qed.

Lemma isUpper_range (c : ascii) :
  isUpper c = true -> (65 <= nat_of_ascii c <= 90)%nat.
Proof.
  unfold isUpper. rewrite andb_true_iff, !Nat.leb_le. tauto.
Qed.

(** The letter of the integer that [stringToIntVec] gives to a capital. *)
Lemma lettersAt_upper (LETTERS : list string) (c : ascii) :
  lettersOk LETTERS = true -> isUpper c = true ->
  lettersAt LETTERS (Some (Z.of_nat (nat_of_ascii c) - 65 + 1)) = String c EmptyString.
Proof.
  intros Hok Hc. apply isUpper_range in Hc. unfold lettersAt.
  destruct (Z.leb_spec 0 (Z.of_nat (nat_of_ascii c) - 65 + 1)) as [_|Hneg]; [|lia].
  replace (Z.to_nat (Z.of_nat (nat_of_ascii c) - 65 + 1)) with (nat_of_ascii c - 64)%nat by lia.
  rewrite (lettersOk_lookup LETTERS _ Hok) by lia. simpl. unfold letterOf.
  replace (64 + (nat_of_ascii c - 64))%nat with (nat_of_ascii c) by lia.
  by rewrite ascii_nat_embedding.
Qed.

(** The letter of an integer between 1 and 26, and its code unit. *)
Lemma lettersAt_int (LETTERS : list string) (z : Z) :
  lettersOk LETTERS = true -> 1 <= z <= 26 ->
  lettersAt LETTERS (Some z) = letterOf (Z.to_nat z).
Proof.
  intros Hok Hz. unfold lettersAt.
  destruct (Z.leb_spec 0 z) as [_|Hneg]; [|lia].
  by rewrite (lettersOk_lookup LETTERS _ Hok) by lia.
Qed.

Lemma letterOf_code (z : Z) :
  1 <= z <= 26 ->
  Z.of_nat (nat_of_ascii (ascii_of_nat (64 + Z.to_nat z))) - 65 + 1 = z.
Proof.
  intros Hz. rewrite nat_ascii_embedding by lia. lia.
Qed.

Lemma stringToIntVec_five (a b c d e : ascii) (rest : string) :
  stringToIntVec (String a (String b (String c (String d (String e rest))))) =
  (fun x => Some (Z.of_nat (nat_of_ascii x) - 65 + 1)) <$> [a; b; c; d; e].
Proof. reflexivity. Qed.

Lemma intVecToString_five (LETTERS : list string) (a b c d e : option Z) :
  intVecToString LETTERS [a; b; c; d; e] =
  (((((EmptyString +:+ lettersAt LETTERS a) +:+ lettersAt LETTERS b) +:+ lettersAt LETTERS c)
    +:+ lettersAt LETTERS d) +:+ lettersAt LETTERS e)%string.
Proof. reflexivity. Qed.

(** The shape of the arguments of the round trips. *)
Lemma isWord_inv (word : string) :
  isWord word = true ->
  exists a b c d e,
    word = String a (String b (String c (String d (String e EmptyString))))
    /\ Forall (fun x => isUpper x = true) [a; b; c; d; e].
Proof.
  unfold isWord. rewrite andb_true_iff, Nat.eqb_eq, forallb_forall. intros [Hlen Hup].
  destruct word as [|a [|b [|c [|d [|e [|f rest]]]]]]; try discriminate Hlen.
  exists a, b, c, d, e. split; [done|].
  apply List.Forall_forall. intros x Hx. apply Hup. exact Hx.
Qed.

Lemma isIntVec_inv (v : list Z) :
  isIntVec v = true ->
  exists a b c d e, v = [a; b; c; d; e] /\ Forall (fun z => 1 <= z <= 26) [a; b; c; d; e].
Proof.
  unfold isIntVec. rewrite andb_true_iff, Nat.eqb_eq, forallb_forall. intros [Hlen Hin].
  destruct v as [|a [|b [|c [|d [|e [|f rest]]]]]]; try discriminate Hlen.
  exists a, b, c, d, e. split; [done|].
  apply List.Forall_forall. intros x Hx.
  specialize (Hin x Hx). rewrite andb_true_iff, !Z.leb_le in Hin. exact Hin.
Qed.

(** C9. The word codec is a two-way mapping.  With [LETTERS] giving the
    [k]-th capital letter at entry [k] (1 to 26): a word of exactly five
    capital letters, turned into its integer vector and back, is the same
    word; a vector of exactly five integers between 1 and 26, turned into a
    string and back, is the same vector. *)
Theorem wordCodec_round_trips (LETTERS : list string) :
  lettersOk LETTERS = true ->
  (forall word : string,
      isWord word = true ->
      intVecToString LETTERS (stringToIntVec word) = word)
  /\ (forall v : list Z,
      isIntVec v = true ->
      stringToIntVec (intVecToString LETTERS (Some <$> v)) = Some <$> v).
Proof.
  intros Hok. split.
  - intros word Hw.
    destruct (isWord_inv word Hw) as (a & b & c & d & e & -> & Hup).
    rewrite stringToIntVec_five.
    repeat match goal with H : Forall _ (_ :: _) |- _ => inversion_clear H end.
    cbn [fmap list_fmap]. rewrite intVecToString_five.
    rewrite !(lettersAt_upper LETTERS) by assumption. reflexivity.
  - intros v Hv.
    destruct (isIntVec_inv v Hv) as (a & b & c & d & e & -> & Hin).
    repeat match goal with H : Forall _ (_ :: _) |- _ => inversion_clear H end.
    cbn [fmap list_fmap]. rewrite intVecToString_five.
    rewrite !(lettersAt_int LETTERS) by assumption.
    unfold letterOf. cbv [append]. rewrite stringToIntVec_five.
    cbn [fmap list_fmap]. by rewrite !letterOf_code by assumption.
Qed.

(** The round trips on the word SOARE and on its vector. *)
Lemma wordCodec_round_trips_witness :
  lettersOk Example.letters = true
  /\ isWord "SOARE" = true
  /\ intVecToString Example.letters (stringToIntVec "SOARE") = "SOARE"%string
  /\ isIntVec [19; 15; 1; 18; 5] = true
  /\ stringToIntVec (intVecToString Example.letters (Some <$> [19; 15; 1; 18; 5]))
     = Some <$> [19; 15; 1; 18; 5].
Proof.
  pose proof (wordCodec_round_trips Example.letters eq_refl) as [Hword Hvec].
  split; [reflexivity|]. split; [reflexivity|].
  split; [exact (Hword "SOARE"%string eq_refl)|].
  split; [reflexivity|].
  exact (Hvec [19; 15; 1; 18; 5] eq_refl).
Defined.

End CodecFacts.

(** ** The pattern encoding *)

Module PatternFacts.
Import Pattern.

Lemma encodePattern_weightedSum (p : FeedbackPattern) :
  encodePattern (toArray p) = Some (weightedSum p).
Proof. by destruct p as [[] [] [] [] []]. Qed.

Lemma weightedSum_range (p : FeedbackPattern) : 0 <= weightedSum p <= 242.
Proof. destruct p as [[] [] [] [] []]; vm_compute; split; discriminate. Qed.

Lemma decodePattern_weightedSum (p : FeedbackPattern) :
  decodePattern (weightedSum p) = p.
Proof. by destruct p as [[] [] [] [] []]. Qed.

Lemma colorValue_colorOfDigit (d : Z) :
  0 <= d < 3 -> colorValue (colorOfDigit d) = d.
Proof.
  intros Hd. unfold colorOfDigit.
  destruct (Z.eqb_spec d 0) as [->|]; [done|].
  destruct (Z.eqb_spec d 1) as [->|]; [done|]. simpl. lia.
Qed.

(** The digits of a code add up to the code. *)
Lemma weightedSum_decodePattern (n : Z) :
  0 <= n <= 242 -> weightedSum (decodePattern n) = n.
Proof.
  intros Hn. unfold weightedSum, decodePattern. cbn [slot0 slot1 slot2 slot3 slot4].
  rewrite !colorValue_colorOfDigit by (apply Z.mod_pos_bound; lia).
  assert (n / 81 mod 3 = n / 81) as -> by (apply Z.mod_small; split; [apply Z.div_pos|apply Z.div_lt_upper_bound]; lia).
  pose proof (Z.div_mod n 3 ltac:(lia)).
  pose proof (Z.div_mod (n / 3) 3 ltac:(lia)).
  pose proof (Z.div_mod (n / 9) 3 ltac:(lia)).
  pose proof (Z.div_mod (n / 27) 3 ltac:(lia)).
  replace (n / 9) with (n / 3 / 3) in * by (rewrite Z.div_div; [done|lia|lia]).
  replace (n / 27) with (n / 3 / 3 / 3) in * by (rewrite !Z.div_div; [done|lia..]).
  replace (n / 81) with (n / 3 / 3 / 3 / 3) in * by (rewrite !Z.div_div; [done|lia..]).
  lia.
Qed.

(** C8. The pattern encoding gives every five-slot feedback pattern the sum
    of slot value times the weight of its position (1, 3, 9, 27, 81); the
    code lies between 0 and 242; the encoding is a bijection between the
    patterns and the codes from 0 to 242: two patterns with the same code
    are the same pattern, and every code from 0 to 242 is the code of a
    pattern. *)
Theorem encodePattern_bijection :
  (forall p : FeedbackPattern,
      encodePattern (toArray p) = Some (weightedSum p) /\ 0 <= weightedSum p <= 242)
  /\ (forall p q : FeedbackPattern,
      encodePattern (toArray p) = encodePattern (toArray q) -> p = q)
  /\ (forall n : Z,
      0 <= n <= 242 -> exists p : FeedbackPattern, encodePattern (toArray p) = Some n).
Proof.
  split; [|split].
  - intros p. split; [apply encodePattern_weightedSum | apply weightedSum_range].
  - intros p q. rewrite !encodePattern_weightedSum. intros [= Heq].
    rewrite <- (decodePattern_weightedSum p), <- (decodePattern_weightedSum q).
    by rewrite Heq.
  - intros n Hn. exists (decodePattern n).
    by rewrite encodePattern_weightedSum, weightedSum_decodePattern.
Qed.

(** The code 207 (gray, gray, green, yellow, green) has a pattern, and a
    pattern with the code of all-green is all-green. *)
Lemma encodePattern_bijection_witness :
  (exists p : FeedbackPattern, encodePattern (toArray p) = Some 207)
  /\ decodePattern 242 = mkPattern Correct Correct Correct Correct Correct.
Proof.
  destruct encodePattern_bijection as (_ & Hinj & Hsurj). split.
  - apply (Hsurj 207). lia.
  - apply (Hinj (decodePattern 242) (mkPattern Correct Correct Correct Correct Correct)).
    reflexivity.
Defined.

End PatternFacts.

(** ** Comparison of scores *)

Module F64Facts.
Import F64.

Lemma ltb_Finite (p q : Q) : ltb (Finite p) (Finite q) = true <-> (p < q)%Q.
Proof.
  simpl. rewrite negb_true_iff, <- not_true_iff_false, Qle_bool_iff.
  split; [apply Qnot_le_lt | apply Qlt_not_le].
Qed.

Lemma eqb_Finite (p q : Q) : eqb (Finite p) (Finite q) = true <-> (p == q)%Q.
Proof. apply Qeq_bool_iff. Qed.

Lemma leb_Finite (p q : Q) : leb (Finite p) (Finite q) = true <-> (p <= q)%Q.
Proof.
  unfold leb. rewrite orb_true_iff, ltb_Finite, eqb_Finite. rewrite Qle_lteq. tauto.
Qed.

(** Every comparison with [NaN] is false. *)
Lemma leb_not_NaN (x y : float64) : leb x y = true -> isNaN x = false /\ isNaN y = false.
Proof. by destruct x, y. Qed.

Lemma eqb_leb (x y : float64) : eqb x y = true -> leb x y = true /\ leb y x = true.
Proof.
  destruct x as [| |p|], y as [| |q|]; try done.
  rewrite eqb_Finite, !leb_Finite. intros Heq. split; lra.
Qed.

Lemma ltb_leb (x y : float64) : ltb x y = true -> leb x y = true.
Proof. unfold leb. by intros ->. Qed.

Lemma leb_refl (x : float64) : isNaN x = false -> leb x x = true.
Proof. destruct x as [| |p|]; try done. intros _. apply leb_Finite. lra. Qed.

Lemma leb_trans (x y z : float64) : leb x y = true -> leb y z = true -> leb x z = true.
Proof.
  destruct x as [| |p|], y as [| |q|], z as [| |r|]; try done.
  rewrite !leb_Finite. lra.
Qed.

Lemma leb_antisym (x y : float64) : leb x y = true -> leb y x = true -> eqb x y = true.
Proof.
  destruct x as [| |p|], y as [| |q|]; try done.
  rewrite !leb_Finite, eqb_Finite. lra.
Qed.

(** Away from [NaN] the order is total. *)
Lemma ltb_false_leb (x y : float64) :
  isNaN x = false -> isNaN y = false -> ltb x y = false -> leb y x = true.
Proof.
  destruct x as [| |p|], y as [| |q|]; try done. intros _ _.
  rewrite <- not_true_iff_false, ltb_Finite, leb_Finite. apply Qnot_lt_le.
Qed.

Lemma ltb_true_leb_false (x y : float64) : ltb x y = true -> leb y x = false.
Proof.
  destruct x as [| |p|], y as [| |q|]; try done.
  rewrite ltb_Finite, <- not_true_iff_false, leb_Finite. apply Qlt_not_le.
Qed.

Lemma maxStep_NaN_l (xs : list float64) : foldl maxStep NaN xs = NaN.
Proof. induction xs as [|x xs IH]; [done|]. exact IH. Qed.

(** One [NaN] among the arguments makes the maximum [NaN]. *)
Lemma foldl_maxStep_NaN (acc : float64) (xs : list float64) :
  Exists (fun x => isNaN x = true) xs -> foldl maxStep acc xs = NaN.
Proof.
  intros Hex. revert acc. induction Hex as [x xs Hx|x xs _ IH]; intros acc; cbn [foldl].
  - destruct x; try discriminate Hx. destruct acc; apply maxStep_NaN_l.
  - apply IH.
Qed.

(** Without [NaN] the fold ends on an upper bound of the start value and of
    the arguments, which is one of them. *)
Lemma foldl_maxStep_max (acc : float64) (xs : list float64) :
  isNaN acc = false ->
  Forall (fun x => isNaN x = false) xs ->
  let r := foldl maxStep acc xs in
  isNaN r = false /\ leb acc r = true /\ Forall (fun x => leb x r = true) xs
  /\ (r = acc \/ r ∈ xs).
Proof.
  intros Hacc Hxs. revert acc Hacc.
  induction Hxs as [|x xs Hx _ IH]; intros acc Hacc; cbn [foldl].
  - split; [done|]. split; [by apply leb_refl|]. split; [constructor|by left].
  - assert (maxStep acc x = if ltb acc x then x else acc) as Hstep
      by (by destruct acc, x).
    rewrite Hstep. destruct (ltb acc x) eqn:Hlt.
    + destruct (IH x Hx) as (Hr & Hle & Hall & Hin).
      split; [done|]. split; [eapply leb_trans; [by apply ltb_leb|done]|].
      split; [by constructor|]. right. destruct Hin as [->|Hin]; [left|by right].
    + destruct (IH acc Hacc) as (Hr & Hle & Hall & Hin).
      split; [done|]. split; [done|].
      split; [constructor; [|done]|destruct Hin as [->|Hin]; [by left|right; by right]].
      apply (leb_trans x acc); [by apply ltb_false_leb|done].
Qed.

(** [x === Math.max(...xs)] for an [x] among [xs]: [x] is at least every
    argument.  With a [NaN] among the arguments both sides fail. *)
Lemma eqb_mathMax (xs : list float64) (x : float64) :
  x ∈ xs ->
  eqb x (mathMax xs) = true <-> forall y, y ∈ xs -> leb y x = true.
Proof.
  intros Hx. unfold mathMax.
  destruct (decide (Exists (fun y => isNaN y = true) xs)) as [Hnan|Hnan].
  - rewrite (foldl_maxStep_NaN _ _ Hnan). split; [by destruct x|].
    intros Hall. apply Exists_exists in Hnan as (y & Hy & Hynan).
    specialize (Hall y Hy). apply leb_not_NaN in Hall as [Hy' _]. congruence.
  - assert (Forall (fun y => isNaN y = false) xs) as Hall.
    { apply Forall_forall. intros y Hy. destruct (isNaN y) eqn:E; [|done].
      exfalso. apply Hnan. apply Exists_exists. eauto. }
    destruct (foldl_maxStep_max NegInfinity xs eq_refl Hall) as (Hr & _ & Hub & Hin).
    cbv zeta in Hr, Hub, Hin. set (r := foldl maxStep NegInfinity xs) in *.
    rewrite Forall_forall in Hub. split.
    + intros Heq y Hy. apply eqb_leb in Heq as [_ Hrx].
      eapply leb_trans; [by apply Hub|done].
    + intros Hmax. apply leb_antisym; [by apply Hub|].
      destruct Hin as [Hr'|Hr']; [|by apply Hmax].
      rewrite Hr'. specialize (Hub x Hx). rewrite Hr' in Hub. by destruct x.
Qed.

End F64Facts.

(** ** The best-guess selection and the feedback handler *)

Module AppFacts.
Import Manager.

Section Facts.

Context {Module : WasmModule} (DATA : WordleData).

(** A view that lies inside the block of its pointer is the view of the
    block, whatever the heap holds around it. *)
Lemma heapView_in_block (ptr : Pointer) (block : list Z) (offset len : Z) (view : list Z) :
  Int32Array block offset len = Some view -> heapView ptr block offset len = Some view.
Proof.
  unfold Int32Array, heapView. case_match eqn:Hin; [|done]. intros [= <-].
  rewrite !andb_true_iff, !Z.leb_le in Hin. destruct Hin as [[Hoff Hlen] Hend].
  destruct (Z.ltb_spec len 0); [lia|].
  apply mapM_Some_2, Forall2_same_length_lookup_2.
  - rewrite length_seqZ, length_take, length_drop. lia.
  - intros i x y Hx Hy. apply lookup_seqZ in Hx as [-> Hi].
    rewrite lookup_take_lt, lookup_drop in Hy by lia.
    unfold heapCell.
    assert ((0 <=? offset + Z.of_nat i) && (offset + Z.of_nat i <? Z.of_nat (length block)) = true)
      as -> by (rewrite andb_true_iff, Z.leb_le, Z.ltb_lt; lia).
    by replace (Z.to_nat (offset + Z.of_nat i)) with (Z.to_nat offset + i)%nat by lia.
Qed.

(** What a call of the scoring kernel leaves untouched. *)
Lemma callCalculateScores_frame (nCand : nat) (isMinimax : Z) (w : World) :
  let w' := callCalculateScores DATA nCand isMinimax w in
  STATE w' = STATE w
  /\ guessesFlat (HEAP w') = guessesFlat (HEAP w)
  /\ isPossibleAnswer (HEAP w') = isPossibleAnswer (HEAP w)
  /\ currentCandidatesA (HEAP w') = currentCandidatesA (HEAP w)
  /\ currentCandidatesB (HEAP w') = currentCandidatesB (HEAP w)
  /\ calls w' = calls w ++ [CalculateScores (currentCandidatesA (HEAP w)) nCand isMinimax].
Proof. by repeat split. Qed.

Lemma entropyTieBreak_frame (nCand : nat) (useMinimax : bool) (best : list nat) (w : World) :
  let w' := fst (entropyTieBreak DATA nCand useMinimax best w) in
  STATE w' = STATE w
  /\ guessesFlat (HEAP w') = guessesFlat (HEAP w)
  /\ isPossibleAnswer (HEAP w') = isPossibleAnswer (HEAP w)
  /\ currentCandidatesA (HEAP w') = currentCandidatesA (HEAP w)
  /\ currentCandidatesB (HEAP w') = currentCandidatesB (HEAP w)
  /\ exists rest, calls w' = calls w ++ rest.
Proof.
  unfold entropyTieBreak.
  destruct ((1 <? length best)%nat && useMinimax); simpl.
  - repeat split; eauto.
  - repeat split. exists []. by rewrite app_nil_r.
Qed.

Lemma finalGuessSelection_frame (best : list nat) (w : World) :
  let w' := worldOf (finalGuessSelection DATA best w) in
  sameGame w w' /\ calls w' = calls w.
Proof.
  unfold finalGuessSelection, sameGame. cbv zeta.
  destruct (head best) as [i|]; by destruct (heapView _ _ _ _).
Qed.

(** The branch of [calculateBestGuess] for a candidate list that is not a
    singleton. *)
Lemma calculateBestGuess_scoring (w : World) :
  length (currentCandidates (STATE w)) <> 1%nat ->
  calculateBestGuess DATA w =
  let nCand := length (currentCandidates (STATE w)) in
  let pass := primaryPass DATA w in
  let tieA := entropyTieBreak DATA nCand (snd (fst pass)) (snd pass) (fst (fst pass)) in
  match answerTieBreak DATA (snd tieA) (fst tieA) with
  | Some bestIndices => finalGuessSelection DATA bestIndices (fst tieA)
  | None => Failed RangeError (fst tieA)
  end.
Proof.
  intros Hlen. unfold calculateBestGuess.
  destruct (currentCandidates (STATE w)) as [|x [|y l]]; try done;
    cbv zeta; destruct (primaryPass DATA _) as [[w2 um] best]; cbn [fst snd];
    by destruct (entropyTieBreak DATA _ um best w2).
Qed.

(** [calculateBestGuess] writes the proposed word, the calculating flag, the
    score block and the call log, and nothing else. *)
Lemma calculateBestGuess_frame (w : World) :
  let w' := worldOf (calculateBestGuess DATA w) in
  sameGame w w' /\ exists rest, calls w' = calls w ++ rest.
Proof.
  destruct (decide (length (currentCandidates (STATE w)) = 1%nat)) as [Hone|Hmany].
  - unfold calculateBestGuess.
    destruct (currentCandidates (STATE w)) as [|x [|y l]]; try discriminate Hone.
    destruct (heapView _ _ _ _); simpl; (split; [done|exists []; by rewrite app_nil_r]).
  - rewrite (calculateBestGuess_scoring w Hmany). cbv zeta. unfold primaryPass.
    cbn [fst snd].
    set (n := length (currentCandidates (STATE w))).
    set (w2 := callCalculateScores DATA n _ _).
    set (best := snd (findBest DATA _ _)).
    pose proof (entropyTieBreak_frame n (n <? 31)%nat best w2) as Hframe.
    destruct (entropyTieBreak DATA n (n <? 31)%nat best w2) as [w3 tied].
    cbn [fst snd] in Hframe |- *. destruct Hframe as (HS & Hg & Hm & Ha & Hb & rest & Hcalls).
    assert (sameGame w w3 /\ calls w3 = calls w ++ CalculateScores (currentCandidatesA (HEAP w)) n (if (n <? 31)%nat then 1 else 0) :: rest) as [Hsame Hc].
    { unfold sameGame. rewrite HS, Hg, Hm, Ha, Hb, Hcalls. subst w2. simpl.
      by rewrite <- app_assoc. }
    destruct (answerTieBreak DATA tied w3) as [survivors|].
    + pose proof (finalGuessSelection_frame survivors w3) as [Hsame' Hc'].
      cbv zeta in Hsame', Hc'. split.
      * unfold sameGame in *. destruct_and!. repeat split; congruence.
      * rewrite Hc', Hc. eauto.
    + simpl. split; [done|]. rewrite Hc. eauto.
Qed.

(** With a candidate list that is not a singleton, the first call is the
    primary scoring call, and a run that returns has cleared the
    calculating flag. *)
Lemma calculateBestGuess_primary_call (w : World) :
  let n := length (currentCandidates (STATE w)) in
  n <> 1%nat ->
  (exists rest,
      calls (worldOf (calculateBestGuess DATA w)) =
      calls w ++ CalculateScores (currentCandidatesA (HEAP w)) n (if (n <? 31)%nat then 1 else 0) :: rest)
  /\ (forall w', calculateBestGuess DATA w = Returned w' -> isCalculating (STATE w') = false).
Proof.
  intros n Hmany. rewrite (calculateBestGuess_scoring w Hmany). cbv zeta. unfold primaryPass.
  cbn [fst snd]. fold n. set (w2 := callCalculateScores DATA n _ _).
  set (best := snd (findBest DATA _ _)).
  pose proof (entropyTieBreak_frame n (n <? 31)%nat best w2) as Hframe.
  destruct (entropyTieBreak DATA n (n <? 31)%nat best w2) as [w3 tied].
  cbn [fst snd] in Hframe |- *. destruct Hframe as (_ & _ & _ & _ & _ & rest & Hcalls).
  assert (calls w3 = calls w ++ CalculateScores (currentCandidatesA (HEAP w)) n
                                  (if (n <? 31)%nat then 1 else 0) :: rest) as Hc.
  { rewrite Hcalls. subst w2. simpl. by rewrite <- app_assoc. }
  destruct (answerTieBreak DATA tied w3) as [survivors|]; [|split; [simpl; eauto|done]].
  split.
  - pose proof (finalGuessSelection_frame survivors w3) as [_ Hc'].
    cbv zeta in Hc'. rewrite Hc', Hc. eauto.
  - intros w'. unfold finalGuessSelection. cbv zeta.
    destruct (head survivors) as [i|]; (destruct (heapView _ _ _ _); [|done]);
      by intros [= <-].
Qed.

(** *** Submitting a pattern *)





(** C10.  An all-green pattern submitted from the active state ends the
    game in the solved state at once: the handler records the submission,
    sets the game-over flag and returns.  The filtering kernel is not
    called, and the candidate list and the heap blocks are as before,
    whatever the number of candidates. *)
Theorem allGreen_solves_without_filter (key : option string) (w : World) :
  ignoredKey key = false ->
  gameOver (STATE w) = false ->
  isCalculating (STATE w) = false ->
  allGreen (feedbackState (STATE w)) = true ->
  let out := handleSubmitFeedback DATA key w in
  out = Returned (withState (setGameOver true)
                   (withState (pushHistory (currentGuessWord (STATE w), feedbackState (STATE w))) w))
  /\ Solved (STATE (worldOf out))
  /\ currentCandidates (STATE (worldOf out)) = currentCandidates (STATE w)
  /\ currentGuessWord (STATE (worldOf out)) = currentGuessWord (STATE w)
  /\ HEAP (worldOf out) = HEAP w
  /\ calls (worldOf out) = calls w.
Proof.
  intros Hkey Hover Hcalc Hgreen out. subst out. unfold handleSubmitFeedback.
  rewrite Hkey, Hover, Hcalc. cbn [orb].
  cbn [STATE withState pushHistory feedbackState]. rewrite Hgreen.
  by repeat split.
Qed.

(** C4.  With exactly one candidate, [calculateBestGuess] makes no kernel
    call and leaves the score block alone; the word it proposes is the one
    that starts at the candidate's position in the flat guess table. *)
Theorem single_candidate_short_circuit (w : World) (startPos : Z) :
  currentCandidates (STATE w) = [startPos] ->
  let out := calculateBestGuess DATA w in
  calls (worldOf out) = calls w
  /\ HEAP (worldOf out) = HEAP w
  /\ forall wordInts : list Z,
       wordAtStartPosition (guessesFlat (HEAP w)) startPos = Some wordInts ->
       out = Returned (withState (setCurrentGuessWord
                                    (Codec.intVecToString (LETTERS DATA) (Some <$> wordInts))) w).
Proof.
  intros Hone out. subst out. unfold calculateBestGuess, wordAtStartPosition. rewrite Hone.
  split; [by destruct (heapView _ _ _ _)|]. split; [by destruct (heapView _ _ _ _)|].
  intros wordInts Hword. by rewrite (heapView_in_block GuessesFlatPtr _ _ _ _ Hword).
Qed.

(** A block filled from a table of its own size holds the table. *)
Lemma HEAP32_set_exact (values : list Z) :
  HEAP32_set values (malloc (length values)) = Some values.
Proof.
  unfold HEAP32_set, malloc. rewrite repeat_length, Nat.leb_refl.
  rewrite drop_ge by (by rewrite repeat_length). by rewrite app_nil_r.
Qed.


(** *** The search for the best score *)

Lemma bestStep_cases (useMinimax : bool) (s : nat -> float64) (b : float64) (l : list nat)
    (i : nat) :
  bestStep useMinimax s (b, l) i =
  if better useMinimax (s i) b then (s i, [i])
  else if F64.eqb (s i) b then (b, l ++ [i])
  else (b, l).
Proof. by destruct useMinimax. Qed.

Lemma better_noWorse (um : bool) (x y : float64) :
  better um x y = true -> noWorse um x y = true /\ noWorse um y x = false.
Proof.
  destruct um; simpl; intros H;
    (split; [by apply F64Facts.ltb_leb | by apply F64Facts.ltb_true_leb_false]).
Qed.

Lemma not_better_noWorse (um : bool) (x y : float64) :
  F64.isNaN x = false -> F64.isNaN y = false ->
  better um x y = false -> noWorse um y x = true.
Proof. destruct um; simpl; intros Hx Hy H; by apply F64Facts.ltb_false_leb. Qed.

Lemma noWorse_not_NaN (um : bool) (x y : float64) :
  noWorse um x y = true -> F64.isNaN x = false /\ F64.isNaN y = false.
Proof. destruct um; simpl; intros H; apply F64Facts.leb_not_NaN in H; tauto. Qed.

Lemma noWorse_refl (um : bool) (x : float64) : F64.isNaN x = false -> noWorse um x x = true.
Proof. destruct um; apply F64Facts.leb_refl. Qed.

Lemma noWorse_trans (um : bool) (x y z : float64) :
  noWorse um x y = true -> noWorse um y z = true -> noWorse um x z = true.
Proof. destruct um; simpl; eauto using F64Facts.leb_trans. Qed.

Lemma noWorse_antisym (um : bool) (x y : float64) :
  noWorse um x y = true -> noWorse um y x = true -> F64.eqb x y = true.
Proof. destruct um; simpl; eauto using F64Facts.leb_antisym. Qed.

Lemma eqb_noWorse (um : bool) (x y : float64) :
  F64.eqb x y = true -> noWorse um x y = true /\ noWorse um y x = true.
Proof. destruct um; simpl; intros H; apply F64Facts.eqb_leb in H; tauto. Qed.

Lemma noWorse_worst (um : bool) (x : float64) :
  F64.isNaN x = false -> noWorse um x (worst um) = true.
Proof. by destruct um, x. Qed.

(** One step of the search keeps its invariant. *)
Lemma bestStep_inv (um : bool) (s : nat -> float64) (k : nat) (acc : float64 * list nat) :
  bestInv um s k acc -> bestInv um s (S k) (bestStep um s acc k).
Proof.
  destruct acc as [b l]. unfold bestInv. cbn [fst snd].
  intros (Hb & Hlow & Hatt & Hmem & Hsorted).
  rewrite bestStep_cases. destruct (better um (s k) b) eqn:Hbetter; cbn [fst snd].
  - apply better_noWorse in Hbetter as [Hle Hnle].
    destruct (noWorse_not_NaN _ _ _ Hle) as [Hk _].
    split; [done|]. split; [|split; [|split]].
    + intros j Hj Hnan. destruct (decide (j = k)) as [->|Hne]; [by apply noWorse_refl|].
      apply (noWorse_trans um _ b); [done|]. apply Hlow; [lia|done].
    + right. exists k. split; [lia|done].
    + intros i. rewrite list_elem_of_singleton. split.
      * intros ->. split; [lia|]. by apply (noWorse_antisym um); apply noWorse_refl.
      * intros [Hi Heq]. destruct (decide (i = k)) as [->|Hne]; [done|]. exfalso.
        apply (eqb_noWorse um) in Heq as [Hik _].
        destruct (noWorse_not_NaN _ _ _ Hik) as [Hi' _].
        assert (noWorse um b (s k) = true) as Habs
          by (apply (noWorse_trans um _ (s i)); [apply Hlow; [lia|done]|done]).
        congruence.
    + repeat constructor.
  - destruct (F64.eqb (s k) b) eqn:Heq; cbn [fst snd].
    + destruct (eqb_noWorse um _ _ Heq) as [Hkb Hbk].
      split; [done|]. split; [|split; [|split]].
      * intros j Hj Hnan. destruct (decide (j = k)) as [->|Hne]; [done|].
        apply Hlow; [lia|done].
      * destruct Hatt as [?|(j & Hj & ?)]; [by left|right; exists j; split; [lia|done]].
      * intros i. rewrite elem_of_app, list_elem_of_singleton, Hmem. split.
        -- intros [[Hi ?]| ->]; (split; [lia|done]).
        -- intros [Hi ?]. destruct (decide (i = k)) as [->|Hne]; [by right|left].
           split; [lia|done].
      * apply StronglySorted_app_2; [|done|repeat constructor].
        intros x1 x2 Hx1 Hx2. apply list_elem_of_singleton in Hx2 as ->.
        by apply Hmem in Hx1 as [? _].
    + split; [done|]. split; [|split; [|split]].
      * intros j Hj Hnan. destruct (decide (j = k)) as [->|Hne].
        -- by apply not_better_noWorse.
        -- apply Hlow; [lia|done].
      * destruct Hatt as [?|(j & Hj & ?)]; [by left|right; exists j; split; [lia|done]].
      * intros i. rewrite Hmem. split.
        -- intros [Hi ?]. split; [lia|done].
        -- intros [Hi Hib]. split; [|done].
           destruct (decide (i = k)) as [->|Hne]; [congruence|lia].
      * done.
Qed.

Lemma foldl_bestStep_inv (um : bool) (s : nat -> float64) (len a : nat)
    (acc : float64 * list nat) :
  bestInv um s a acc -> bestInv um s (a + len) (foldl (bestStep um s) acc (seq a len)).
Proof.
  revert a acc. induction len as [|len IH]; intros a acc Hinv; cbn [seq foldl].
  - by rewrite Nat.add_0_r.
  - replace (a + S len)%nat with (S a + len)%nat by lia.
    apply IH. by apply bestStep_inv.
Qed.

Lemma findBest_inv (um : bool) (s : nat -> float64) :
  bestInv um s (N_TOTAL_GUESSES DATA) (findBest DATA um s).
Proof.
  unfold findBest. apply (foldl_bestStep_inv um s (N_TOTAL_GUESSES DATA) 0).
  unfold bestInv. cbn [fst snd]. fold (worst um).
  split; [by destruct um|]. split; [intros j Hj; lia|]. split; [by left|].
  split; [|constructor]. intros i. rewrite elem_of_nil. split; [done|]. intros [Hi _]. lia.
Qed.

(** The indices that [findBest] returns are those that attain the extremal
    score, in increasing order. *)
Lemma findBest_extremal (um : bool) (s : nat -> float64) :
  (forall i, i ∈ snd (findBest DATA um s) <-> extremal um s (N_TOTAL_GUESSES DATA) i)
  /\ StronglySorted lt (snd (findBest DATA um s)).
Proof.
  destruct (findBest_inv um s) as (Hb & Hlow & Hatt & Hmem & Hsorted).
  split; [|done]. intros i. rewrite Hmem. unfold extremal. split.
  - intros [Hi Heq]. split; [done|].
    destruct (eqb_noWorse um _ _ Heq) as [Hib Hbi].
    split; [by destruct (noWorse_not_NaN _ _ _ Hib)|].
    intros j Hj Hnan. apply (noWorse_trans um _ (fst (findBest DATA um s))); [done|].
    by apply Hlow.
  - intros (Hi & Hnan & Hbest). split; [done|].
    apply (noWorse_antisym um); [|by apply Hlow].
    destruct Hatt as [->|(j & Hj & Heq)]; [by apply noWorse_worst|].
    rewrite Heq in Hb |- *. by apply Hbest.
Qed.

(** *** The tie-breaks *)

(** The positional filter of tie-break A is a filter on the indices. *)
Lemma positional_filter (e : nat -> float64) (m : float64) (l : list nat) :
  fst <$> List.filter (fun '(_, s) => F64.eqb s m) (zip l (e <$> l)) =
  List.filter (fun i => F64.eqb (e i) m) l.
Proof.
  induction l as [|i l IH]; [done|]. cbn [fmap list_fmap zip zip_with List.filter].
  destruct (F64.eqb (e i) m); cbn [fmap list_fmap fst]; by rewrite <- IH.
Qed.

Lemma elem_of_List_filter {A : Type} (f : A -> bool) (l : list A) (x : A) :
  x ∈ List.filter f l <-> x ∈ l /\ f x = true.
Proof. rewrite !list_elem_of_In. apply filter_In. Qed.

Lemma StronglySorted_List_filter {A : Type} (R : relation A) (f : A -> bool) (l : list A) :
  StronglySorted R l -> StronglySorted R (List.filter f l).
Proof.
  induction 1 as [|x l Hl IH Hx]; [constructor|]. cbn [List.filter].
  destruct (f x); [|done]. constructor; [done|].
  apply Forall_forall. intros y Hy. apply elem_of_List_filter in Hy as [Hy _].
  rewrite Forall_forall in Hx. by apply Hx.
Qed.

(** The first element of an increasing list is its least. *)
Lemma head_least (l : list nat) (i : nat) :
  StronglySorted lt l -> head l = Some i -> forall j, j ∈ l -> (i <= j)%nat.
Proof.
  intros Hsorted Hhead j Hj. destruct l as [|x l]; [done|].
  injection Hhead as ->. apply StronglySorted_inv in Hsorted as [_ Hall].
  apply elem_of_cons in Hj as [->|Hj]; [lia|].
  rewrite Forall_forall in Hall. specialize (Hall j Hj). lia.
Qed.

(** Tie-break A on any tied list: what it calls and what it keeps. *)
Lemma entropyTieBreak_spec (nCand : nat) (useMinimax : bool) (best : list nat) (w : World) :
  let entropyScores :=
    _cpp_calculate_scores_wasm (guessesFlat (HEAP w)) (N_TOTAL_GUESSES DATA)
      (currentCandidatesA (HEAP w)) nCand 0 in
  let w' := fst (entropyTieBreak DATA nCand useMinimax best w) in
  let tied := snd (entropyTieBreak DATA nCand useMinimax best w) in
  (useMinimax = true /\ (1 < length best)%nat ->
     w' = callCalculateScores DATA nCand 0 w
     /\ tied = List.filter (fun i => F64.eqb (entropyScores i)
                                      (F64.mathMax (entropyScores <$> best))) best
     /\ forall i, i ∈ tied <->
                  i ∈ best /\ forall j, j ∈ best ->
                                        F64.leb (entropyScores j) (entropyScores i) = true)
  /\ (useMinimax = false \/ (length best <= 1)%nat -> w' = w /\ tied = best).
Proof.
  intros entropyScores w' tied. subst w' tied. unfold entropyTieBreak. split.
  - intros [-> Hlen]. apply Nat.ltb_lt in Hlen. rewrite Hlen. cbn [andb fst snd].
    split; [done|]. cbn [callCalculateScores HEAP withHeap logCall setScores scores].
    fold entropyScores. rewrite positional_filter. split; [done|].
    intros i. rewrite elem_of_List_filter. split.
    + intros [Hi Hmax]. split; [done|]. intros j Hj.
      rewrite F64Facts.eqb_mathMax in Hmax by (by apply list_elem_of_fmap_2).
      apply Hmax. by apply list_elem_of_fmap_2.
    + intros [Hi Hmax]. split; [done|].
      apply F64Facts.eqb_mathMax; [by apply list_elem_of_fmap_2|].
      intros y Hy. apply list_elem_of_fmap in Hy as (j & -> & Hj). by apply Hmax.
  - intros Hno. assert ((1 <? length best)%nat && useMinimax = false) as ->; [|done].
    destruct Hno as [->|Hlen]; [by rewrite andb_false_r|].
    apply Nat.ltb_ge in Hlen. by rewrite Hlen.
Qed.

(** The lists of indices during the selection are increasing and below the
    size of the guess table. *)
Lemma selection_sorted (nCand : nat) (um um' : bool) (s : nat -> float64) (w : World) :
  let tied := snd (entropyTieBreak DATA nCand um' (snd (findBest DATA um s)) w) in
  StronglySorted lt tied /\ forall i, i ∈ tied -> (i < N_TOTAL_GUESSES DATA)%nat.
Proof.
  destruct (findBest_extremal um s) as [Hmem Hsorted].
  assert (forall i, i ∈ snd (findBest DATA um s) -> (i < N_TOTAL_GUESSES DATA)%nat) as Hlt
    by (intros i Hi; by apply Hmem in Hi as [? _]).
  unfold entropyTieBreak.
  destruct ((1 <? length (snd (findBest DATA um s)))%nat && um'); cbn [snd]; [|done].
  rewrite positional_filter. split; [by apply StronglySorted_List_filter|].
  intros i Hi. apply elem_of_List_filter in Hi as [Hi _]. by apply Hlt.
Qed.

(** C5.  With two or more candidates the primary pass is one call of the
    scoring kernel; its metric flag is 1 (minimax) exactly when there are
    fewer than 31 candidates and 0 (entropy) exactly when there are 31 or
    more; the indices kept are those whose score is extremal for that
    metric: lowest for minimax, highest for entropy. *)
Theorem primary_metric_threshold (w : World) :
  let n := length (currentCandidates (STATE w)) in
  (2 <= n)%nat ->
  let w2 := fst (fst (primaryPass DATA w)) in
  let useMinimax := snd (fst (primaryPass DATA w)) in
  let best := snd (primaryPass DATA w) in
  (useMinimax = true <-> (n < 31)%nat)
  /\ (useMinimax = false <-> (31 <= n)%nat)
  /\ calls w2 =
     calls w ++ [CalculateScores (currentCandidatesA (HEAP w)) n (if useMinimax then 1 else 0)]
  /\ scores (HEAP w2) =
     _cpp_calculate_scores_wasm (guessesFlat (HEAP w)) (N_TOTAL_GUESSES DATA)
       (currentCandidatesA (HEAP w)) n (if useMinimax then 1 else 0)
  /\ (forall i, i ∈ best <-> extremal useMinimax (scores (HEAP w2)) (N_TOTAL_GUESSES DATA) i)
  /\ exists rest, calls (worldOf (calculateBestGuess DATA w)) = calls w2 ++ rest.
Proof.
  intros n Hn w2 useMinimax best. subst w2 useMinimax best. unfold primaryPass.
  fold n. cbn [fst snd].
  split; [apply Nat.ltb_lt|]. split; [apply Nat.ltb_ge|].
  split; [done|]. split; [done|]. split; [apply findBest_extremal|].
  assert (n <> 1%nat) as Hmany by lia.
  destruct (calculateBestGuess_primary_call w Hmany) as [[rest ->] _]. fold n.
  exists rest. cbn [callCalculateScores calls logCall withHeap withState HEAP].
  by rewrite <- app_assoc.
Qed.

(** C6.  In a run of [calculateBestGuess] on a candidate list that is not a
    singleton, the kernel is called a second time, for entropy scores,
    exactly when the primary metric was minimax and more than one index
    attained the lowest primary score.  The tied indices kept are then
    those whose entropy score is at least that of every tied index.  When
    the primary metric was entropy, or at most one index is tied, there is
    no second call and the tied list is as it was. *)
Theorem entropy_tie_break_on_minimax_ties (w : World) :
  let n := length (currentCandidates (STATE w)) in
  n <> 1%nat ->
  let w2 := fst (fst (primaryPass DATA w)) in
  let useMinimax := (n <? 31)%nat in
  let best := snd (primaryPass DATA w) in
  let entropyScores :=
    _cpp_calculate_scores_wasm (guessesFlat (HEAP w)) (N_TOTAL_GUESSES DATA)
      (currentCandidatesA (HEAP w)) n 0 in
  let w3 := fst (entropyTieBreak DATA n useMinimax best w2) in
  let tied := snd (entropyTieBreak DATA n useMinimax best w2) in
  (forall i, i ∈ best <-> extremal useMinimax (scores (HEAP w2)) (N_TOTAL_GUESSES DATA) i)
  /\ calls (worldOf (calculateBestGuess DATA w)) = calls w3
  /\ (useMinimax = true /\ (1 < length best)%nat ->
       calls w3 = calls w2 ++ [CalculateScores (currentCandidatesA (HEAP w)) n 0]
       /\ scores (HEAP w3) = entropyScores
       /\ tied = List.filter (fun i => F64.eqb (entropyScores i)
                                        (F64.mathMax (entropyScores <$> best))) best
       /\ forall i, i ∈ tied <->
                    i ∈ best /\ forall j, j ∈ best ->
                                          F64.leb (entropyScores j) (entropyScores i) = true)
  /\ (useMinimax = false \/ (length best <= 1)%nat -> w3 = w2 /\ tied = best).
Proof.
  intros n Hmany w2 useMinimax best entropyScores w3 tied.
  split; [apply findBest_extremal|].
  destruct (entropyTieBreak_spec n useMinimax best w2) as [Hyes Hno].
  cbv zeta in Hyes, Hno. fold w3 tied in Hyes, Hno. split; [|split].
  - rewrite (calculateBestGuess_scoring w Hmany). cbv zeta.
    change (calls (worldOf match answerTieBreak DATA tied w3 with
                           | Some bestIndices => finalGuessSelection DATA bestIndices w3
                           | None => Failed RangeError w3
                           end) = calls w3).
    destruct (answerTieBreak DATA tied w3) as [survivors|]; [|done].
    by destruct (finalGuessSelection_frame survivors w3) as [_ ->].
  - intros Hcond. destruct (Hyes Hcond) as (-> & Htied & Hmem).
    split; [done|]. split; [done|]. split; [exact Htied|exact Hmem].
  - exact Hno.
Qed.

(** C7.  In a run of [calculateBestGuess] on a candidate list that is not a
    singleton, with a mask block of at least one entry per guess: when more
    than one index is tied after tie-break A, the tied indices flagged 1 in
    the mask are kept if there is one, and all tied indices otherwise; the
    guess selected is the first of the surviving indices, which is the least
    of them, and the word proposed is the word of that index. *)
Theorem answer_tie_break_and_first_index (w : World) :
  let n := length (currentCandidates (STATE w)) in
  n <> 1%nat ->
  (N_TOTAL_GUESSES DATA <= length (isPossibleAnswer (HEAP w)))%nat ->
  let w2 := fst (fst (primaryPass DATA w)) in
  let best := snd (primaryPass DATA w) in
  let w3 := fst (entropyTieBreak DATA n (n <? 31)%nat best w2) in
  let tied := snd (entropyTieBreak DATA n (n <? 31)%nat best w2) in
  let answers :=
    List.filter (fun i => bool_decide (isPossibleAnswer (HEAP w) !! i = Some 1)) tied in
  let survivors :=
    if (1 <? length tied)%nat && (0 <? length answers)%nat then answers else tied in
  calculateBestGuess DATA w = finalGuessSelection DATA survivors w3
  /\ forall i,
       head survivors = Some i ->
       (forall j, j ∈ survivors -> (i <= j)%nat)
       /\ forall wordInts,
            wordAtIndex (guessesFlat (HEAP w)) (Z.of_nat i) = Some wordInts ->
            calculateBestGuess DATA w =
            Returned (withState (setIsCalculating false)
                       (withState (setCurrentGuessWord
                                     (Codec.intVecToString (LETTERS DATA) (Some <$> wordInts))) w3)).
Proof.
  intros n Hmany Hmask w2 best w3 tied answers survivors.
  pose proof (entropyTieBreak_frame n (n <? 31)%nat best w2) as Hframe.
  cbv zeta in Hframe. fold w3 in Hframe. destruct Hframe as (_ & Hflat & Hm & _).
  assert (guessesFlat (HEAP w3) = guessesFlat (HEAP w)) as Hflat' by (by rewrite Hflat).
  assert (isPossibleAnswer (HEAP w3) = isPossibleAnswer (HEAP w)) as Hm' by (by rewrite Hm).
  destruct (selection_sorted n (n <? 31)%nat (n <? 31)%nat (scores (HEAP w2)) w2)
    as [Hsorted Hbound].
  change (snd (findBest DATA (n <? 31)%nat (scores (HEAP w2)))) with best in Hsorted, Hbound.
  cbv zeta in Hsorted, Hbound. fold tied in Hsorted, Hbound.
  assert (answerTieBreak DATA tied w3 = Some survivors) as Hb.
  { unfold answerTieBreak. rewrite Hm'. subst survivors.
    destruct (1 <? length tied)%nat; [|done]. cbn [andb].
    rewrite (heapView_in_block IsPossibleAnswerPtr _ 0 _
               (take (N_TOTAL_GUESSES DATA) (isPossibleAnswer (HEAP w)))).
    2:{ unfold Int32Array.
        assert ((0 <=? 0) && (0 <=? Z.of_nat (N_TOTAL_GUESSES DATA))
                && (0 + Z.of_nat (N_TOTAL_GUESSES DATA)
                    <=? Z.of_nat (length (isPossibleAnswer (HEAP w)))) = true) as ->
          by (rewrite !andb_true_iff, !Z.leb_le; lia).
        by rewrite Nat2Z.id, drop_0. }
    cbn [mbind option_bind].
    assert (List.filter
              (fun i => bool_decide (take (N_TOTAL_GUESSES DATA) (isPossibleAnswer (HEAP w)) !! i
                                     = Some 1)) tied = answers) as ->; [|done].
    apply filter_ext_in. intros i Hi. apply list_elem_of_In in Hi.
    by rewrite lookup_take_lt by (by apply Hbound). }
  assert (calculateBestGuess DATA w = finalGuessSelection DATA survivors w3) as Hrun.
  { rewrite (calculateBestGuess_scoring w Hmany). cbv zeta.
    change (match answerTieBreak DATA tied w3 with
            | Some bestIndices => finalGuessSelection DATA bestIndices w3
            | None => Failed RangeError w3
            end = finalGuessSelection DATA survivors w3).
    by rewrite Hb. }
  split; [exact Hrun|]. intros i Hhead. split.
  - apply head_least; [|done]. subst survivors.
    destruct ((1 <? length tied)%nat && (0 <? length answers)%nat); [|done].
    by apply StronglySorted_List_filter.
  - intros wordInts Hword. rewrite Hrun. unfold finalGuessSelection. rewrite Hhead.
    unfold wordAtIndex in Hword. cbv zeta.
    by rewrite Hflat', (heapView_in_block GuessesFlatPtr _ _ _ _ Hword).
Qed.

End Facts.

(** *** Worked examples *)

Import Example.

(** The feedback rule on repeated letters: SPEED against ERASE, SPEED
    against ABIDE, and SOARE against CRANE. *)
Lemma simulate_repeated_letters :
  Kernel.simulate (wordInts "SPEED") (wordInts "ERASE") = [1; 0; 1; 1; 0]
  /\ Kernel.simulate (wordInts "SPEED") (wordInts "ABIDE") = [0; 0; 1; 0; 1]
  /\ Kernel.simulate (wordInts "SOARE") (wordInts "CRANE") = [0; 0; 2; 1; 2]
  /\ Kernel.encode [0; 0; 2; 1; 2] = 207.
Proof. by repeat split. Qed.



(** The all-green pattern on SOARE with three candidates left. *)
Lemma allGreen_solves_without_filter_witness :
  length (currentCandidates (STATE soareAllGreen)) = 3%nat
  /\ Solved (STATE (worldOf (handleSubmitFeedback (Module := module) data None soareAllGreen)))
  /\ currentCandidates (STATE (worldOf (handleSubmitFeedback (Module := module) data None soareAllGreen)))
     = [5; 10; 15]
  /\ calls (worldOf (handleSubmitFeedback (Module := module) data None soareAllGreen))
     = calls soareAllGreen.
Proof.
  destruct (allGreen_solves_without_filter (Module := module) data None soareAllGreen
              eq_refl eq_refl eq_refl eq_refl) as (_ & Hsolved & Hcands & _ & _ & Hcalls).
  split; [reflexivity|]. split; [exact Hsolved|]. split; [exact Hcands|exact Hcalls].
Defined.

(** CRANE as the only candidate: it is proposed without any kernel call. *)
Lemma single_candidate_short_circuit_witness :
  currentCandidates (STATE craneOnlyInitialized) = [5]
  /\ currentGuessWord
       (STATE (worldOf (calculateBestGuess (Module := module) craneOnly craneOnlyInitialized)))
     = "CRANE"%string
  /\ calls (worldOf (calculateBestGuess (Module := module) craneOnly craneOnlyInitialized)) = [].
Proof.
  destruct (single_candidate_short_circuit (Module := module) craneOnly craneOnlyInitialized 5
              eq_refl) as (Hcalls & _ & Hword).
  split; [reflexivity|]. split; [|exact Hcalls].
  by rewrite (Hword (wordInts "CRANE") eq_refl).
Defined.



(** C3 on the six-word game.  The filter leaves the entry 5 (CRANE) as the
    only candidate, and the solved branch of [handleSubmitFeedback] reads
    the word at offset 25: ROATE.  The short-circuit of [calculateBestGuess]
    reads the same entry at offset 5: CRANE. *)
Theorem candidate_entry_read_two_ways :
  let solved := worldOf (handleSubmitFeedback (Module := module) data None slateAgainstCrane) in
  let single := worldOf (calculateBestGuess (Module := module) craneOnly craneOnlyInitialized) in
  guessesFlat (HEAP solved) = guessesFlat (HEAP single)
  /\ take 1 (currentCandidatesB (HEAP solved)) = [5]
  /\ currentCandidates (STATE single) = [5]
  /\ Solved (STATE solved)
  /\ currentGuessWord (STATE solved) = "ROATE"%string
  /\ currentGuessWord (STATE single) = "CRANE"%string.
Proof. by repeat split. Qed.

(** The start of the six-word game: three candidates, the minimax scores
    tie at the indices 0, 1, 2, 3 and 5. *)
Lemma primary_metric_threshold_witness :
  length (currentCandidates (STATE initialized)) = 3%nat
  /\ calls (fst (fst (primaryPass (Module := module) data initialized)))
     = [CalculateScores [5; 10; 15; 0; 0; 0] 3 1]
  /\ snd (fst (primaryPass (Module := module) data initialized)) = true.
Proof.
  assert (2 <= length (currentCandidates (STATE initialized)))%nat as Hn by (simpl; lia).
  destruct (primary_metric_threshold (Module := module) data initialized Hn)
    as (Hmin & _ & Hcalls & _).
  split; [reflexivity|]. split; [exact Hcalls|]. apply Hmin. simpl. lia.
Defined.

(** Of the five tied indices, 0, 2 and 3 have the highest entropy score. *)
Lemma entropy_tie_break_on_minimax_ties_witness :
  snd (primaryPass (Module := module) data initialized) = [0; 1; 2; 3; 5]%nat
  /\ snd (entropyTieBreak (Module := module) data 3 true [0; 1; 2; 3; 5]%nat
            (fst (fst (primaryPass (Module := module) data initialized))))
     = [0; 2; 3]%nat
  /\ calls (worldOf (calculateBestGuess (Module := module) data initialized))
     = [CalculateScores [5; 10; 15; 0; 0; 0] 3 1; CalculateScores [5; 10; 15; 0; 0; 0] 3 0].
Proof.
  assert (length (currentCandidates (STATE initialized)) <> 1%nat) as Hn by (simpl; lia).
  destruct (entropy_tie_break_on_minimax_ties (Module := module) data initialized Hn)
    as (_ & Hcalls & Hyes & _).
  assert (true = true /\ (1 < 5)%nat) as Hcond by (split; [reflexivity|lia]).
  destruct (Hyes Hcond) as (Hsecond & _ & Htied & _).
  split; [reflexivity|]. split; [exact Htied|].
  rewrite Hcalls. exact Hsecond.
Defined.

(** Of the indices 0, 2 and 3, the mask flags 2 and 3; SLATE, at index 2, is
    proposed. *)
Lemma answer_tie_break_and_first_index_witness :
  (N_TOTAL_GUESSES data <= length (isPossibleAnswer (HEAP initialized)))%nat
  /\ currentGuessWord (STATE (worldOf (calculateBestGuess (Module := module) data initialized)))
     = "SLATE"%string.
Proof.
  assert (length (currentCandidates (STATE initialized)) <> 1%nat) as Hn by (simpl; lia).
  assert (N_TOTAL_GUESSES data <= length (isPossibleAnswer (HEAP initialized)))%nat as Hmask
    by (simpl; lia).
  destruct (answer_tie_break_and_first_index (Module := module) data initialized Hn Hmask)
    as [_ Hfirst].
  destruct (Hfirst 2%nat eq_refl) as [_ Hword].
  split; [exact Hmask|]. by rewrite (Hword (wordInts "SLATE") eq_refl).
Defined.

End AppFacts.

(** ** Tile clicks and the feedback array *)

Module TileFacts.
Import Pattern Invariant.

Lemma COLOR_MAP_Some_inv (key : string) (v : Z) :
  COLOR_MAP key = Some v -> exists c : Color, key = colorKey c /\ v = colorValue c.
Proof.
  unfold COLOR_MAP.
  destruct (String.eqb_spec key "_") as [->|_]; [intros [= <-]; by exists Absent|].
  destruct (String.eqb_spec key "Y") as [->|_]; [intros [= <-]; by exists Present|].
  destruct (String.eqb_spec key "G") as [->|_]; [intros [= <-]; by exists Correct|done].
Qed.

Lemma nextColor_unknown (key : string) : COLOR_MAP key = None -> nextColor key = "_"%string.
Proof.
  unfold COLOR_MAP, nextColor, indexOf, cycle. cbn [indexOfFrom].
  rewrite (String.eqb_sym "_"), (String.eqb_sym "Y"), (String.eqb_sym "G").
  destruct (String.eqb key "_"); [done|]. destruct (String.eqb key "Y"); [done|].
  by destruct (String.eqb key "G").
Qed.

Lemma nextColor_key (key : string) : exists c : Color, nextColor key = colorKey c.
Proof.
  destruct (COLOR_MAP key) as [v|] eqn:Hkey.
  - apply COLOR_MAP_Some_inv in Hkey as ([] & -> & _);
      [by exists Present | by exists Correct | by exists Absent].
  - exists Absent. by apply nextColor_unknown.
Qed.

(** X1.  [nextColor] turns gray into yellow, yellow into green and green
    into gray, so three steps come back to the start; every string that is
    no colour key becomes gray; the result is always a colour key. *)
Theorem nextColor_cycles :
  (forall c : Color, COLOR_MAP (nextColor (colorKey c)) = Some ((colorValue c + 1) mod 3))
  /\ (forall c : Color, nextColor (nextColor (nextColor (colorKey c))) = colorKey c)
  /\ (forall key : string, COLOR_MAP key = None -> nextColor key = "_"%string)
  /\ (forall key : string, is_Some (COLOR_MAP (nextColor key))).
Proof.
  split; [by intros []|]. split; [by intros []|]. split; [apply nextColor_unknown|].
  intros key. destruct (nextColor_key key) as [c ->]. by destruct c.
Qed.

Lemma nextColor_cycles_witness :
  nextColor "E" = "_"%string /\ is_Some (COLOR_MAP (nextColor "ERROR")).
Proof.
  destruct nextColor_cycles as (_ & _ & Hunknown & Hkey).
  split; [exact (Hunknown "E"%string eq_refl)|exact (Hkey "ERROR"%string)].
Defined.

(** What a click writes. *)
Lemma handleTileClick_writes (index : nat) (w : World) :
  gameOver (STATE w) = false ->
  (handleTileClick index w = None <-> (length (feedbackState (STATE w)) <= index)%nat)
  /\ forall w', handleTileClick index w = Some w' ->
       feedbackState (STATE w') !! index = nextColor <$> feedbackState (STATE w) !! index
       /\ (forall j, j <> index ->
                     feedbackState (STATE w') !! j = feedbackState (STATE w) !! j)
       /\ length (feedbackState (STATE w')) = length (feedbackState (STATE w))
       /\ currentCandidates (STATE w') = currentCandidates (STATE w)
       /\ currentGuessWord (STATE w') = currentGuessWord (STATE w)
       /\ history (STATE w') = history (STATE w)
       /\ gameOver (STATE w') = false
       /\ isCalculating (STATE w') = isCalculating (STATE w)
       /\ HEAP w' = HEAP w
       /\ calls w' = calls w.
Proof.
  intros Hover. unfold handleTileClick. rewrite Hover. split.
  - destruct (feedbackState (STATE w) !! index) as [c|] eqn:Hslot; cbn [mbind option_bind].
    + apply lookup_lt_Some in Hslot. split; [done|lia].
    + apply lookup_ge_None in Hslot. done.
  - intros w'. destruct (feedbackState (STATE w) !! index) as [c|] eqn:Hslot; [|done].
    cbn [mbind option_bind]. intros [= <-].
    cbn [STATE withState setFeedbackState feedbackState currentCandidates currentGuessWord
         history gameOver isCalculating HEAP calls].
    apply lookup_lt_Some in Hslot as Hlt.
    split; [by rewrite list_lookup_insert_eq|].
    split; [intros j Hj; by rewrite list_lookup_insert_ne|].
    split; [by rewrite length_insert|]. by repeat split.
Qed.

(** X2.  While the game is on, a click on a slot of the feedback array
    replaces the colour of that slot by the next colour and changes nothing
    else: the other slots, the length of the array, the rest of [STATE], the
    heap and the call log are as before.  A click on no slot of the array is
    the only click without a result. *)
Theorem handleTileClick_one_slot (index : nat) (w : World) :
  gameOver (STATE w) = false ->
  (handleTileClick index w = None <-> (length (feedbackState (STATE w)) <= index)%nat)
  /\ forall w', handleTileClick index w = Some w' ->
       feedbackState (STATE w') !! index = nextColor <$> feedbackState (STATE w) !! index
       /\ (forall j, j <> index ->
                     feedbackState (STATE w') !! j = feedbackState (STATE w) !! j)
       /\ length (feedbackState (STATE w')) = length (feedbackState (STATE w))
       /\ currentCandidates (STATE w') = currentCandidates (STATE w)
       /\ currentGuessWord (STATE w') = currentGuessWord (STATE w)
       /\ history (STATE w') = history (STATE w)
       /\ gameOver (STATE w') = false
       /\ isCalculating (STATE w') = isCalculating (STATE w)
       /\ HEAP w' = HEAP w
       /\ calls w' = calls w.
Proof. apply handleTileClick_writes. Qed.

Lemma handleTileClick_one_slot_witness :
  feedbackState (STATE (default initialWorld (handleTileClick 2 initialWorld)))
  !! 2%nat = Some "Y"%string
  /\ handleTileClick 5 initialWorld = None.
Proof.
  destruct (handleTileClick_one_slot 2 initialWorld eq_refl) as [_ Hsome].
  destruct (handleTileClick_one_slot 5 initialWorld eq_refl) as [Hnone _].
  split.
  - exact (proj1 (Hsome _ eq_refl)).
  - apply Hnone. simpl. lia.
Defined.

(** An array of five colour keys is the array of a pattern. *)
Lemma isFeedback_toArray (fb : list string) :
  isFeedback fb = true -> exists p : FeedbackPattern, fb = toArray p.
Proof.
  unfold isFeedback. rewrite andb_true_iff, Nat.eqb_eq. intros [Hlen Hkeys].
  destruct fb as [|a [|b [|c [|d [|e [|f rest]]]]]]; try discriminate Hlen.
  cbn [forallb] in Hkeys. rewrite !andb_true_iff in Hkeys.
  destruct Hkeys as (Ha & Hb & Hc & Hd & He & _).
  destruct (COLOR_MAP a) as [va|] eqn:Ea; [|done].
  destruct (COLOR_MAP b) as [vb|] eqn:Eb; [|done].
  destruct (COLOR_MAP c) as [vc|] eqn:Ec; [|done].
  destruct (COLOR_MAP d) as [vd|] eqn:Ed; [|done].
  destruct (COLOR_MAP e) as [ve|] eqn:Ee; [|done].
  apply COLOR_MAP_Some_inv in Ea as (ca & -> & _), Eb as (cb & -> & _),
    Ec as (cc & -> & _), Ed as (cd & -> & _), Ee as (ce & -> & _).
  by exists (mkPattern ca cb cc cd ce).
Qed.

Lemma isFeedback_insert (fb : list string) (index : nat) (key : string) :
  isFeedback fb = true -> isFeedback (<[index := nextColor key]> fb) = true.
Proof.
  unfold isFeedback. rewrite !andb_true_iff, length_insert. intros [Hlen Hkeys].
  split; [done|]. rewrite forallb_forall in Hkeys |- *. intros x Hx.
  apply list_elem_of_In, list_elem_of_lookup in Hx as [j Hj].
  destruct (decide (j = index)) as [->|Hne].
  - assert (index < length fb)%nat as Hlt
      by (apply lookup_lt_Some in Hj; by rewrite length_insert in Hj).
    rewrite list_lookup_insert_eq in Hj by done. injection Hj as <-.
    destruct (nextColor_key key) as [c ->]. by destruct c.
  - rewrite list_lookup_insert_ne in Hj by done.
    apply Hkeys, list_elem_of_In, list_elem_of_lookup. eauto.
Qed.

(** X3.  Starting from five colour keys with the game on, any series of
    clicks on the tiles 0 to 4 goes through and leaves five colour keys, so
    the pattern that a submission encodes is a number between 0 and 242 and
    never [NaN]; the clicks change nothing but the feedback array. *)
Theorem clickTiles_encodable (indices : list nat) (w : World) :
  gameOver (STATE w) = false ->
  isFeedback (feedbackState (STATE w)) = true ->
  Forall (fun index => (index < 5)%nat) indices ->
  exists w',
    clickTiles indices w = Some w'
    /\ isFeedback (feedbackState (STATE w')) = true
    /\ (exists code, encodePattern (feedbackState (STATE w')) = Some code /\ 0 <= code <= 242)
    /\ gameOver (STATE w') = false
    /\ currentCandidates (STATE w') = currentCandidates (STATE w)
    /\ currentGuessWord (STATE w') = currentGuessWord (STATE w)
    /\ history (STATE w') = history (STATE w)
    /\ HEAP w' = HEAP w
    /\ calls w' = calls w.
Proof.
  intros Hover Hfb Hidx. unfold clickTiles. revert w Hover Hfb.
  induction Hidx as [|index indices Hlt _ IH]; intros w Hover Hfb; cbn [foldl].
  - exists w. split; [done|]. split; [done|]. split; [|done].
    destruct (isFeedback_toArray _ Hfb) as [p ->]. exists (weightedSum p).
    split; [apply PatternFacts.encodePattern_weightedSum|apply PatternFacts.weightedSum_range].
  - cbn [mbind option_bind].
    assert (length (feedbackState (STATE w)) = 5%nat) as Hlen.
    { unfold isFeedback in Hfb. rewrite andb_true_iff, Nat.eqb_eq in Hfb. tauto. }
    destruct (handleTileClick_writes index w Hover) as [Hnone Hsome].
    destruct (handleTileClick index w) as [w1|] eqn:Hclick;
      [|pose proof (proj1 Hnone eq_refl); lia].
    destruct (Hsome w1 eq_refl) as (_ & _ & _ & Hc & Hg & Hh & Hover1 & _ & Hheap & Hcalls).
    assert (isFeedback (feedbackState (STATE w1)) = true) as Hfb1.
    { unfold handleTileClick in Hclick. rewrite Hover in Hclick.
      destruct (feedbackState (STATE w) !! index) as [key|]; [|done].
      cbn [mbind option_bind] in Hclick. injection Hclick as <-.
      by apply isFeedback_insert. }
    destruct (IH w1 Hover1 Hfb1) as (w' & Hrun & Hfb' & Hcode & Hover' & Hc' & Hg' & Hh' & Hheap' & Hcalls').
    exists w'. split; [done|]. split; [done|]. split; [done|]. split; [done|].
    repeat split; congruence.
Qed.

Lemma clickTiles_encodable_witness :
  exists w',
    clickTiles [2; 2; 4; 0; 2; 4]%nat Example.started = Some w'
    /\ exists code, encodePattern (feedbackState (STATE w')) = Some code /\ 0 <= code <= 242.
Proof.
  assert (Forall (fun index => (index < 5)%nat) [2; 2; 4; 0; 2; 4]%nat) as Hidx
    by (repeat constructor).
  destruct (clickTiles_encodable [2; 2; 4; 0; 2; 4]%nat Example.started eq_refl eq_refl Hidx)
    as (w' & Hrun & _ & Hcode & _).
  exists w'. split; [exact Hrun|exact Hcode].
Defined.

End TileFacts.

(** ** The codecs on arbitrary input *)

Module CodecEdges.
Import Codec Pattern.

(** The value of a slot: [COLOR_MAP[fbArray[i]]]. *)
Lemma encodePattern_slots (fb : list string) :
  encodePattern fb =
  match fb !! 0%nat ≫= COLOR_MAP, fb !! 1%nat ≫= COLOR_MAP, fb !! 2%nat ≫= COLOR_MAP,
        fb !! 3%nat ≫= COLOR_MAP, fb !! 4%nat ≫= COLOR_MAP with
  | Some c0, Some c1, Some c2, Some c3, Some c4 =>
      Some (0 + c0 * 1 + c1 * 3 + c2 * 9 + c3 * 27 + c4 * 81)
  | _, _, _, _, _ => None
  end.
Proof.
  unfold encodePattern. cbn [seq foldl].
  destruct (fb !! 0%nat ≫= COLOR_MAP) as [c0|]; cbn [mbind option_bind weights lookup list_lookup];
    [|by destruct (fb !! 1%nat ≫= COLOR_MAP), (fb !! 2%nat ≫= COLOR_MAP),
           (fb !! 3%nat ≫= COLOR_MAP), (fb !! 4%nat ≫= COLOR_MAP)].
  destruct (fb !! 1%nat ≫= COLOR_MAP) as [c1|]; cbn [mbind option_bind weights lookup list_lookup];
    [|by destruct (fb !! 2%nat ≫= COLOR_MAP), (fb !! 3%nat ≫= COLOR_MAP),
           (fb !! 4%nat ≫= COLOR_MAP)].
  destruct (fb !! 2%nat ≫= COLOR_MAP) as [c2|]; cbn [mbind option_bind weights lookup list_lookup];
    [|by destruct (fb !! 3%nat ≫= COLOR_MAP), (fb !! 4%nat ≫= COLOR_MAP)].
  destruct (fb !! 3%nat ≫= COLOR_MAP) as [c3|]; cbn [mbind option_bind weights lookup list_lookup];
    [|by destruct (fb !! 4%nat ≫= COLOR_MAP)].
  by destruct (fb !! 4%nat ≫= COLOR_MAP) as [c4|].
Qed.

Lemma COLOR_MAP_range (key : option string) (c : Z) :
  key ≫= COLOR_MAP = Some c -> 0 <= c <= 2.
Proof.
  destruct key as [k|]; [|done]. cbn [mbind option_bind]. intros Hk.
  apply TileFacts.COLOR_MAP_Some_inv in Hk as ([] & _ & ->); simpl; lia.
Qed.

(** X4.  On any array, [encodePattern] is [NaN] exactly when one of the
    slots 0 to 4 is missing or holds no colour key; when it is a number, the
    number lies between 0 and 242; slots from the sixth on are ignored. *)
Theorem encodePattern_any_array (fb : list string) :
  (encodePattern fb = None <->
   exists i, (i < 5)%nat /\ fb !! i ≫= COLOR_MAP = None)
  /\ (forall code, encodePattern fb = Some code -> 0 <= code <= 242)
  /\ encodePattern fb = encodePattern (take 5 fb).
Proof.
  split; [|split].
  - rewrite encodePattern_slots. split.
    + destruct (fb !! 0%nat ≫= COLOR_MAP) eqn:E0; [|exists 0%nat; split; [lia|done]].
      destruct (fb !! 1%nat ≫= COLOR_MAP) eqn:E1; [|exists 1%nat; split; [lia|done]].
      destruct (fb !! 2%nat ≫= COLOR_MAP) eqn:E2; [|exists 2%nat; split; [lia|done]].
      destruct (fb !! 3%nat ≫= COLOR_MAP) eqn:E3; [|exists 3%nat; split; [lia|done]].
      destruct (fb !! 4%nat ≫= COLOR_MAP) eqn:E4; [|exists 4%nat; split; [lia|done]].
      done.
    + intros (i & Hi & Hnone).
      destruct i as [|[|[|[|[|i]]]]]; [..|lia]; rewrite Hnone;
        by repeat match goal with |- context [match ?o with Some _ => _ | None => _ end] =>
                            destruct o end.
  - intros code. rewrite encodePattern_slots.
    destruct (fb !! 0%nat ≫= COLOR_MAP) as [c0|] eqn:E0; [|done].
    destruct (fb !! 1%nat ≫= COLOR_MAP) as [c1|] eqn:E1; [|done].
    destruct (fb !! 2%nat ≫= COLOR_MAP) as [c2|] eqn:E2; [|done].
    destruct (fb !! 3%nat ≫= COLOR_MAP) as [c3|] eqn:E3; [|done].
    destruct (fb !! 4%nat ≫= COLOR_MAP) as [c4|] eqn:E4; [|done].
    intros [= <-].
    apply COLOR_MAP_range in E0, E1, E2, E3, E4. lia.
  - rewrite (encodePattern_slots fb), (encodePattern_slots (take 5 fb)).
    by rewrite !lookup_take_lt by lia.
Qed.

Lemma encodePattern_any_array_witness :
  encodePattern ["E"; "R"; "R"; "O"; "R"]%string = None
  /\ encodePattern ["G"; "Y"]%string = None
  /\ encodePattern ["G"; "G"; "G"; "G"; "G"; "E"]%string = Some 242.
Proof.
  destruct (encodePattern_any_array ["E"; "R"; "R"; "O"; "R"]%string) as (Herror & _ & _).
  destruct (encodePattern_any_array ["G"; "Y"]%string) as (Hshort & _ & _).
  destruct (encodePattern_any_array ["G"; "G"; "G"; "G"; "G"; "E"]%string) as (_ & _ & Hlong).
  split; [apply Herror; exists 0%nat; split; [lia|reflexivity]|].
  split; [apply Hshort; exists 2%nat; split; [lia|reflexivity]|].
  rewrite Hlong. reflexivity.
Defined.

Lemma get_None (word : string) (i : nat) :
  String.get i word = None <-> (String.length word <= i)%nat.
Proof.
  revert i. induction word as [|c word IH]; intros i; cbn [String.get String.length].
  - split; [lia|done].
  - destruct i as [|i]; [split; [done|lia]|]. rewrite IH. lia.
Qed.

Lemma stringToIntVec_entries (word : string) :
  stringToIntVec word =
  (fun i => c ← charCodeAt word i; Some (c - 65 + 1)) <$> seq 0 5.
Proof. reflexivity. Qed.

(** X5.  Whatever the string, [stringToIntVec] returns five entries: entry
    [i] is the code unit at [i] less 64 when the string has one there, and
    [NaN] exactly when the string ends before [i]. *)
Theorem stringToIntVec_any_string (word : string) :
  length (stringToIntVec word) = 5%nat
  /\ forall i, (i < 5)%nat ->
       (stringToIntVec word !! i = Some None <-> (String.length word <= i)%nat)
       /\ forall c, String.get i word = Some c ->
            stringToIntVec word !! i = Some (Some (Z.of_nat (nat_of_ascii c) - 64)).
Proof.
  rewrite stringToIntVec_entries. split; [done|]. intros i Hi.
  rewrite list_lookup_fmap, lookup_seq_lt by done. cbn [fmap option_fmap option_map Nat.add].
  unfold charCodeAt. rewrite <- get_None. split.
  - by destruct (String.get i word).
  - intros c ->. cbn [mbind option_bind]. do 2 f_equal. lia.
Qed.

Lemma stringToIntVec_any_string_witness :
  stringToIntVec "HI" !! 1%nat = Some (Some 9) /\ stringToIntVec "HI" !! 2%nat = Some None.
Proof.
  destruct (stringToIntVec_any_string "HI") as [_ Hentry].
  assert (1 < 5)%nat as H1 by lia. assert (2 < 5)%nat as H2 by lia.
  split.
  - exact (proj2 (Hentry 1%nat H1) "I"%char eq_refl).
  - apply (proj1 (Hentry 2%nat H2)). simpl. lia.
Defined.

Lemma append_nil_r (s : string) : (s +:+ "")%string = s.
Proof. induction s as [|c s IH]; [done|]. cbv [append] in *. fold append in *. by rewrite IH. Qed.

Lemma append_assoc (s t u : string) : ((s +:+ t) +:+ u)%string = (s +:+ (t +:+ u))%string.
Proof.
  induction s as [|c s IH]; [done|].
  change (String c s +:+ t)%string with (String c (s +:+ t)).
  change (String c (s +:+ t) +:+ u)%string with (String c ((s +:+ t) +:+ u)).
  change (String c s +:+ (t +:+ u))%string with (String c (s +:+ (t +:+ u))).
  by rewrite IH.
Qed.

Lemma foldl_lettersAt (LETTERS : list string) (acc : string) (ints : list (option Z)) :
  foldl (fun word charInt => word +:+ lettersAt LETTERS charInt)%string acc ints =
  (acc +:+ intVecToString LETTERS ints)%string.
Proof.
  unfold intVecToString. revert acc.
  induction ints as [|x ints IH]; intros acc; cbn [foldl].
  - by rewrite append_nil_r.
  - rewrite (IH (acc +:+ lettersAt LETTERS x)%string), (IH ("" +:+ lettersAt LETTERS x)%string).
    by rewrite append_assoc.
Qed.

(** X6.  [intVecToString] goes through any array without failing: the
    string of two arrays put together is the two strings put together, the
    empty array gives the empty string, and an entry that is [NaN], negative
    or beyond the end of [LETTERS] contributes the text "undefined". *)
Theorem intVecToString_any_array (LETTERS : list string) :
  (forall a b : list (option Z),
      intVecToString LETTERS (a ++ b)
      = (intVecToString LETTERS a +:+ intVecToString LETTERS b)%string)
  /\ intVecToString LETTERS [] = ""%string
  /\ (forall x : option Z,
      match x with
      | Some z => z < 0 \/ Z.of_nat (length LETTERS) <= z
      | None => True
      end ->
      intVecToString LETTERS [x] = "undefined"%string).
Proof.
  split; [|split; [done|]].
  - intros a b. unfold intVecToString at 1. rewrite foldl_app.
    change (foldl _ ""%string a) with (intVecToString LETTERS a).
    apply foldl_lettersAt.
  - intros [z|] Hx; [|done]. unfold intVecToString, lettersAt. cbn [foldl].
    destruct (Z.leb_spec 0 z); [|done].
    destruct Hx as [?|Hx]; [lia|].
    by rewrite (proj2 (lookup_ge_None LETTERS (Z.to_nat z))) by lia.
Qed.

Lemma intVecToString_any_array_witness :
  intVecToString Example.letters [Some 27] = "undefined"%string
  /\ intVecToString Example.letters ([Some 8] ++ [Some 9; None])
     = (intVecToString Example.letters [Some 8]
        +:+ intVecToString Example.letters [Some 9; None])%string.
Proof.
  destruct (intVecToString_any_array Example.letters) as (Happ & _ & Hout).
  split.
  - apply (Hout (Some 27)). right. simpl. lia.
  - exact (Happ [Some 8] [Some 9; None]).
Defined.

End CodecEdges.

(** ** The game as a whole *)

Module GameFacts.
Import Manager Invariant.

Section Game.

Context {Module : WasmModule} (DATA : WordleData).

(** The three ways through [handleSubmitFeedback]. *)
Lemma handleSubmitFeedback_cases (key : option string) (w : World) :
  ((ignoredKey key = true \/ gameOver (STATE w) = true \/ isCalculating (STATE w) = true)
   /\ handleSubmitFeedback DATA key w = Returned w)
  \/ (ignoredKey key = false /\ gameOver (STATE w) = false /\ isCalculating (STATE w) = false
      /\ ((allGreen (feedbackState (STATE w)) = true
           /\ handleSubmitFeedback DATA key w = Returned (withState (setGameOver true) (recorded w)))
          \/ (allGreen (feedbackState (STATE w)) = false
              /\ handleSubmitFeedback DATA key w =
                 updateCandidateState DATA (fst (filterCandidates (recorded w)))
                   (snd (filterCandidates (recorded w)))))).
Proof.
  unfold handleSubmitFeedback.
  destruct (ignoredKey key); [left; split; [by left|done]|].
  destruct (gameOver (STATE w)); [left; split; [right; by left|done]|].
  destruct (isCalculating (STATE w)); [left; split; [right; by right|done]|].
  right. split; [done|]. split; [done|]. split; [done|]. cbn [orb].
  change (STATE (withState _ w)) with (STATE (recorded w)).
  change (feedbackState (STATE (recorded w))) with (feedbackState (STATE w)).
  destruct (allGreen (feedbackState (STATE w))); [by left|right].
  split; [done|]. fold (recorded w). by destruct (filterCandidates (recorded w)).
Qed.

(** The filtering step writes the guess vector, buffer B and the log. *)
Lemma filterCandidates_writes (w : World) :
  let w' := snd (filterCandidates w) in
  STATE w' = STATE w
  /\ guessesFlat (HEAP w') = guessesFlat (HEAP w)
  /\ isPossibleAnswer (HEAP w') = isPossibleAnswer (HEAP w)
  /\ currentCandidatesA (HEAP w') = currentCandidatesA (HEAP w)
  /\ scores (HEAP w') = scores (HEAP w)
  /\ calls w' =
     calls w ++ [FilterCandidates (toInt32 <$> Codec.stringToIntVec (currentGuessWord (STATE w)))
                   (toInt32 (Pattern.encodePattern (feedbackState (STATE w))))
                   (currentCandidatesA (HEAP w)) (length (currentCandidates (STATE w)))].
Proof.
  unfold filterCandidates. cbn [HEAP withHeap setGuessWordVec guessWordVec guessesFlat
    currentCandidatesA currentCandidatesB].
  by destruct (_cpp_filter_candidates_wasm _ _ _ _ _ _).
Qed.

(** The counts 0 and 1 end the game and write the word and the feedback. *)
Lemma updateCandidateState_end (n : Z) (w : World) :
  n = 0 \/ n = 1 ->
  let w' := worldOf (updateCandidateState DATA n w) in
  gameOver (STATE w') = true
  /\ currentCandidates (STATE w') = currentCandidates (STATE w)
  /\ history (STATE w') = history (STATE w)
  /\ isCalculating (STATE w') = isCalculating (STATE w)
  /\ HEAP w' = HEAP w
  /\ calls w' = calls w.
Proof.
  unfold updateCandidateState. intros [-> | ->]; cbn [Z.eqb]; [done|].
  destruct (Int32Array (currentCandidatesB _) 0 1) as [[|finalWordIndex [|? ?]]|]; try done.
  by destruct (heapView _ _ _ _).
Qed.

(** Another count that is no view of buffer B stops the handler. *)
Lemma updateCandidateState_fault (n : Z) (w : World) :
  n <> 0 -> n <> 1 -> Int32Array (currentCandidatesB (HEAP w)) 0 n = None ->
  updateCandidateState DATA n w = Failed OutOfBlock w.
Proof.
  intros H0 H1 Hview. unfold updateCandidateState.
  destruct (Z.eqb_spec n 0); [done|]. destruct (Z.eqb_spec n 1); [done|]. by rewrite Hview.
Qed.

(** Otherwise the handler goes on with [calculateBestGuess] on the new
    candidates and the swapped buffers. *)
Lemma updateCandidateState_continue (n : Z) (w : World) (cands : list Z) :
  n <> 0 -> n <> 1 -> Int32Array (currentCandidatesB (HEAP w)) 0 n = Some cands ->
  let w2 := withHeap swapCandidateBuffers (withState (setCurrentCandidates cands) w) in
  let w3 := worldOf (calculateBestGuess DATA w2) in
  let w' := worldOf (updateCandidateState DATA n w) in
  currentCandidates (STATE w') = currentCandidates (STATE w3)
  /\ history (STATE w') = history (STATE w3)
  /\ gameOver (STATE w') = gameOver (STATE w3)
  /\ isCalculating (STATE w') = isCalculating (STATE w3)
  /\ HEAP w' = HEAP w3
  /\ calls w' = calls w3.
Proof.
  intros H0 H1 Hview. unfold updateCandidateState.
  destruct (Z.eqb_spec n 0); [done|]. destruct (Z.eqb_spec n 1); [done|]. rewrite Hview.
  cbv zeta. by destruct (calculateBestGuess DATA _).
Qed.


(** The calls of [calculateBestGuess], for any candidate list. *)
Lemma calculateBestGuess_log (w : World) :
  exists rest,
    calls (worldOf (calculateBestGuess DATA w)) = calls w ++ rest
    /\ (length rest <= 2)%nat
    /\ Forall (scoringCallOn (currentCandidatesA (HEAP w))
                 (length (currentCandidates (STATE w)))) rest
    /\ (length (currentCandidates (STATE w)) = 1%nat -> rest = []).
Proof.
  destruct (decide (length (currentCandidates (STATE w)) = 1%nat)) as [Hone|Hmany].
  - exists []. rewrite app_nil_r.
    split; [|split; [simpl; lia|split; [constructor|done]]].
    unfold calculateBestGuess.
    destruct (currentCandidates (STATE w)) as [|x [|y l]]; try discriminate Hone.
    by destruct (heapView _ _ _ _).
  - rewrite (AppFacts.calculateBestGuess_scoring DATA w Hmany). cbv zeta.
    unfold primaryPass. cbn [fst snd].
    set (n := length (currentCandidates (STATE w))).
    set (w2 := callCalculateScores DATA n _ _).
    set (best := snd (findBest DATA _ _)).
    assert (exists rest,
               calls (fst (entropyTieBreak DATA n (n <? 31)%nat best w2)) = calls w ++ rest
               /\ (length rest <= 2)%nat
               /\ Forall (scoringCallOn (currentCandidatesA (HEAP w)) n) rest) as Hlog.
    { unfold entropyTieBreak. destruct ((1 <? length best)%nat && (n <? 31)%nat); cbn [fst].
      - exists [CalculateScores (currentCandidatesA (HEAP w)) n (if (n <? 31)%nat then 1 else 0);
                CalculateScores (currentCandidatesA (HEAP w)) n 0].
        split; [subst w2; simpl; by rewrite <- app_assoc|]. split; [simpl; lia|].
        repeat constructor; unfold scoringCallOn; eauto.
      - exists [CalculateScores (currentCandidatesA (HEAP w)) n (if (n <? 31)%nat then 1 else 0)].
        split; [done|]. split; [simpl; lia|].
        repeat constructor; unfold scoringCallOn; eauto. }
    destruct Hlog as (rest & Hcalls & Hlen & Hall).
    exists rest. split; [|split; [done|split; [done|intros; subst n; lia]]].
    destruct (entropyTieBreak DATA n (n <? 31)%nat best w2) as [w3 tied]. cbn [fst snd] in *.
    destruct (answerTieBreak DATA tied w3) as [survivors|]; [|done].
    by destruct (AppFacts.finalGuessSelection_frame DATA survivors w3) as [_ ->].
Qed.

(** X7.  Submissions that the guards turn away change nothing: a keyboard
    event with a key other than Enter, and any submission while the game is
    over or a calculation is marked as running, return the world as it is.
    Once the game is over a tile click changes nothing either. *)
Theorem guarded_events_change_nothing (key : option string) (index : nat) (w : World) :
  (ignoredKey key = true \/ gameOver (STATE w) = true \/ isCalculating (STATE w) = true ->
   handleSubmitFeedback DATA key w = Returned w)
  /\ (gameOver (STATE w) = true -> handleTileClick index w = Some w).
Proof.
  split.
  - intros Hguard. destruct (handleSubmitFeedback_cases key w) as [[_ ?]|(Hk & Ho & Hc & _)]; [done|].
    destruct Hguard as [?|[?|?]]; congruence.
  - intros Hover. unfold handleTileClick. by rewrite Hover.
Qed.

(** X8.  A submission that passes the guards adds exactly one entry to the
    end of the history, the proposed word with the feedback as submitted,
    and keeps the earlier entries, however the handler ends. *)
Theorem submission_appends_history (key : option string) (w : World) :
  ignoredKey key = false ->
  gameOver (STATE w) = false ->
  isCalculating (STATE w) = false ->
  history (STATE (worldOf (handleSubmitFeedback DATA key w)))
  = history (STATE w) ++ [(currentGuessWord (STATE w), feedbackState (STATE w))].
Proof.
  intros Hkey Hover Hcalc.
  destruct (handleSubmitFeedback_cases key w) as [[[?|[?|?]] _]|(_ & _ & _ & Hrun)];
    try congruence.
  destruct Hrun as [[_ ->]|[_ ->]]; [done|].
  pose proof (filterCandidates_writes (recorded w)) as (HS & _).
  cbv zeta in HS. set (n := fst _). set (w2 := snd _) in *.
  assert (history (STATE w2)
          = history (STATE w) ++ [(currentGuessWord (STATE w), feedbackState (STATE w))]) as <-
    by (by rewrite HS).
  destruct (decide (n = 0 \/ n = 1)) as [Hend|Hgo].
  - by destruct (updateCandidateState_end n w2 Hend) as (_ & _ & -> & _).
  - destruct (Int32Array (currentCandidatesB (HEAP w2)) 0 n) as [cands|] eqn:Hview.
    + destruct (updateCandidateState_continue n w2 cands) as (_ & -> & _); [lia..|done|].
      by destruct (AppFacts.calculateBestGuess_frame DATA
                     (withHeap swapCandidateBuffers (withState (setCurrentCandidates cands) w2)))
        as [(_ & _ & -> & _) _].
    + by rewrite updateCandidateState_fault by (done || lia).
Qed.

(** X9.  No handler writes the two tables: after a submission, a reset or a
    run of [calculateBestGuess], the guess-table block and the mask block
    hold what they held before. *)
Theorem tables_are_read_only (key : option string) (w : World) :
  (guessesFlat (HEAP (worldOf (handleSubmitFeedback DATA key w))) = guessesFlat (HEAP w)
   /\ isPossibleAnswer (HEAP (worldOf (handleSubmitFeedback DATA key w)))
      = isPossibleAnswer (HEAP w))
  /\ (guessesFlat (HEAP (worldOf (handleResetApp DATA w))) = guessesFlat (HEAP w)
      /\ isPossibleAnswer (HEAP (worldOf (handleResetApp DATA w))) = isPossibleAnswer (HEAP w))
  /\ (guessesFlat (HEAP (worldOf (calculateBestGuess DATA w))) = guessesFlat (HEAP w)
      /\ isPossibleAnswer (HEAP (worldOf (calculateBestGuess DATA w)))
         = isPossibleAnswer (HEAP w)).
Proof.
  split; [|split].
  - destruct (handleSubmitFeedback_cases key w) as [[_ ->]|(_ & _ & _ & Hrun)]; [done|].
    destruct Hrun as [[_ ->]|[_ ->]]; [done|].
    pose proof (filterCandidates_writes (recorded w)) as (_ & Hflat & Hmask & _).
    cbv zeta in Hflat, Hmask. set (n := fst _). set (w2 := snd _) in *.
    change (guessesFlat (HEAP (recorded w))) with (guessesFlat (HEAP w)) in Hflat.
    change (isPossibleAnswer (HEAP (recorded w))) with (isPossibleAnswer (HEAP w)) in Hmask.
    rewrite <- Hflat, <- Hmask.
    destruct (decide (n = 0 \/ n = 1)) as [Hend|Hgo].
    + by destruct (updateCandidateState_end n w2 Hend) as (_ & _ & _ & _ & -> & _).
    + destruct (Int32Array (currentCandidatesB (HEAP w2)) 0 n) as [cands|] eqn:Hview.
      * destruct (updateCandidateState_continue n w2 cands) as (_ & _ & _ & _ & -> & _);
          [lia..|done|].
        destruct (AppFacts.calculateBestGuess_frame DATA
                    (withHeap swapCandidateBuffers (withState (setCurrentCandidates cands) w2)))
          as [(_ & _ & _ & _ & -> & -> & _) _]. done.
      * by rewrite updateCandidateState_fault by (done || lia).
  - unfold handleResetApp. by destruct (HEAP32_set _ _).
  - by destruct (AppFacts.calculateBestGuess_frame DATA w) as [(_ & _ & _ & _ & -> & -> & _) _].
Qed.

Lemma HEAP32_set_prefix (values block result : list Z) :
  HEAP32_set values block = Some result ->
  take (length values) result = values
  /\ drop (length values) result = drop (length values) block
  /\ length result = length block.
Proof.
  unfold HEAP32_set. destruct (Nat.leb_spec (length values) (length block)); [|done].
  intros [= <-]. split; [by rewrite take_app_length|]. split; [by rewrite drop_app_length|].
  rewrite length_app, length_drop. lia.
Qed.

(** X10.  With initial candidates that are 32-bit integers, which [HEAP32]
    stores as they are, and that fit buffer A, [initializeWasmMemory] and
    [handleResetApp] return with the initial candidates as the candidates of
    [STATE] and at the start of buffer A.  At initialization buffer A has
    room for as many entries as there are guesses. *)
Theorem candidates_mirrored_at_start (w : World) :
  Forall int32 (INITIAL_CANDIDATE_START_POSITIONS DATA) ->
  ((length (INITIAL_CANDIDATE_START_POSITIONS DATA) <= N_TOTAL_GUESSES DATA)%nat ->
   exists w', initializeWasmMemory DATA w = Returned w'
              /\ candidatesMirrored w'
              /\ currentCandidates (STATE w') = INITIAL_CANDIDATE_START_POSITIONS DATA)
  /\ ((length (INITIAL_CANDIDATE_START_POSITIONS DATA)
       <= length (currentCandidatesA (HEAP w)))%nat ->
      exists w', handleResetApp DATA w = Returned w'
                 /\ candidatesMirrored w'
                 /\ currentCandidates (STATE w') = INITIAL_CANDIDATE_START_POSITIONS DATA).
Proof.
  intros _. split.
  - intros Hfit. unfold initializeWasmMemory. rewrite !AppFacts.HEAP32_set_exact.
    destruct (HEAP32_set _ (malloc (N_TOTAL_GUESSES DATA))) as [bufA|] eqn:Hset.
    + eexists. split; [reflexivity|]. split; [|done]. unfold candidatesMirrored.
      cbn [STATE HEAP withState withHeap setCurrentCandidates currentCandidates
           currentCandidatesA].
      by apply HEAP32_set_prefix in Hset as [? _].
    + unfold HEAP32_set, malloc in Hset. rewrite repeat_length in Hset.
      destruct (Nat.leb_spec (length (INITIAL_CANDIDATE_START_POSITIONS DATA))
                  (N_TOTAL_GUESSES DATA)); [done|lia].
  - intros Hfit. unfold handleResetApp.
    cbn [STATE HEAP withState currentCandidates currentCandidatesA].
    destruct (HEAP32_set _ (currentCandidatesA (HEAP w))) as [bufA|] eqn:Hset.
    + eexists. split; [reflexivity|]. split; [|done]. unfold candidatesMirrored.
      cbn [STATE HEAP withState withHeap setCurrentCandidatesA currentCandidates
           currentCandidatesA].
      by apply HEAP32_set_prefix in Hset as [? _].
    + unfold HEAP32_set in Hset.
      destruct (Nat.leb_spec (length (INITIAL_CANDIDATE_START_POSITIONS DATA))
                  (length (currentCandidatesA (HEAP w)))); [done|lia].
Qed.


(** X12.  The kernel calls of a handler.  [calculateBestGuess] makes at most
    two calls, all of them scoring calls on buffer A with the number of
    candidates of [STATE], and none with a single candidate.  A submission
    makes no call at all or one filtering call, on the vector of the
    proposed word, the code of the feedback, buffer A and the number of
    candidates, followed by at most two scoring calls. *)
Theorem kernel_calls_of_a_handler (key : option string) (w : World) :
  (exists rest,
      calls (worldOf (calculateBestGuess DATA w)) = calls w ++ rest
      /\ (length rest <= 2)%nat
      /\ Forall (scoringCallOn (currentCandidatesA (HEAP w))
                   (length (currentCandidates (STATE w)))) rest
      /\ (length (currentCandidates (STATE w)) = 1%nat -> rest = []))
  /\ (calls (worldOf (handleSubmitFeedback DATA key w)) = calls w
      \/ exists scoring blockA nCand,
          calls (worldOf (handleSubmitFeedback DATA key w)) =
          calls w ++ FilterCandidates
                       (toInt32 <$> Codec.stringToIntVec (currentGuessWord (STATE w)))
                       (toInt32 (Pattern.encodePattern (feedbackState (STATE w))))
                       (currentCandidatesA (HEAP w))
                       (length (currentCandidates (STATE w))) :: scoring
          /\ (length scoring <= 2)%nat
          /\ Forall (scoringCallOn blockA nCand) scoring).
Proof.
  split; [apply calculateBestGuess_log|].
  destruct (handleSubmitFeedback_cases key w) as [[_ ->]|(_ & _ & _ & Hrun)]; [by left|].
  destruct Hrun as [[_ ->]|[_ ->]]; [by left|]. right.
  pose proof (filterCandidates_writes (recorded w)) as (_ & _ & _ & _ & _ & Hcalls).
  cbv zeta in Hcalls. set (n := fst _). set (w2 := snd _) in *.
  change (calls (recorded w)) with (calls w) in Hcalls.
  change (STATE (recorded w)) with
    (pushHistory (currentGuessWord (STATE w), feedbackState (STATE w)) (STATE w)) in Hcalls.
  cbn [pushHistory currentGuessWord feedbackState currentCandidates] in Hcalls.
  change (HEAP (recorded w)) with (HEAP w) in Hcalls.
  destruct (decide (n = 0 \/ n = 1)) as [Hend|Hgo].
  - destruct (updateCandidateState_end n w2 Hend) as (_ & _ & _ & _ & _ & ->).
    exists [], [], 0%nat. rewrite Hcalls. split; [done|]. split; [simpl; lia|constructor].
  - destruct (Int32Array (currentCandidatesB (HEAP w2)) 0 n) as [cands|] eqn:Hview.
    + destruct (updateCandidateState_continue n w2 cands) as (_ & _ & _ & _ & _ & ->);
        [lia..|done|].
      destruct (calculateBestGuess_log
                  (withHeap swapCandidateBuffers (withState (setCurrentCandidates cands) w2)))
        as (scoring & -> & Hlen & Hall & _).
      eexists scoring, _, _. split; [|split; [done|exact Hall]].
      change (calls (withHeap _ _)) with (calls w2). rewrite Hcalls. by rewrite <- app_assoc.
    + rewrite updateCandidateState_fault by (done || lia).
      exists [], [], 0%nat. cbn [worldOf]. rewrite Hcalls.
      split; [done|]. split; [simpl; lia|constructor].
Qed.

(** X13.  A submission that ends the game leaves the candidates alone: when
    the game is on before and over after, the candidate list of [STATE] and
    buffer A are as before, also when the filter left one candidate. *)
Theorem ending_submission_keeps_candidates (key : option string) (w : World) :
  gameOver (STATE w) = false ->
  gameOver (STATE (worldOf (handleSubmitFeedback DATA key w))) = true ->
  currentCandidates (STATE (worldOf (handleSubmitFeedback DATA key w)))
  = currentCandidates (STATE w)
  /\ currentCandidatesA (HEAP (worldOf (handleSubmitFeedback DATA key w)))
     = currentCandidatesA (HEAP w).
Proof.
  intros Hon. destruct (handleSubmitFeedback_cases key w) as [[_ ->]|(_ & _ & _ & Hrun)];
    [cbn [worldOf]; congruence|].
  destruct Hrun as [[_ ->]|[_ ->]]; [done|].
  pose proof (filterCandidates_writes (recorded w)) as (HS & _ & _ & HA & _).
  cbv zeta in HS, HA. set (n := fst _). set (w2 := snd _) in *.
  change (currentCandidatesA (HEAP (recorded w))) with (currentCandidatesA (HEAP w)) in HA.
  assert (currentCandidates (STATE w2) = currentCandidates (STATE w)) as Hc2 by (by rewrite HS).
  assert (gameOver (STATE w2) = false) as Hon2 by (by rewrite HS).
  destruct (decide (n = 0 \/ n = 1)) as [Hend|Hgo].
  - destruct (updateCandidateState_end n w2 Hend) as (_ & Hc & _ & _ & Hh & _).
    intros _. by rewrite Hc, Hh.
  - destruct (Int32Array (currentCandidatesB (HEAP w2)) 0 n) as [cands|] eqn:Hview.
    + destruct (updateCandidateState_continue n w2 cands) as (_ & _ & Hg & _); [lia..|done|].
      destruct (AppFacts.calculateBestGuess_frame DATA
                  (withHeap swapCandidateBuffers (withState (setCurrentCandidates cands) w2)))
        as [(_ & _ & _ & Hg' & _) _].
      rewrite Hg, Hg'. cbn [STATE withHeap withState setCurrentCandidates gameOver]. congruence.
    + rewrite updateCandidateState_fault by (done || lia). cbn [worldOf]. congruence.
Qed.

Lemma findBest_keeps_none (useMinimax : bool) (scoresArray : nat -> float64) :
  snd (findBest DATA useMinimax scoresArray) = []
  <-> forall i, (i < N_TOTAL_GUESSES DATA)%nat -> F64.isNaN (scoresArray i) = true.
Proof.
  destruct (AppFacts.findBest_inv DATA useMinimax scoresArray) as (Hb & Hlow & Hatt & Hmem & _).
  set (best := findBest DATA useMinimax scoresArray) in *. split.
  - intros Hempty i Hi. destruct (F64.isNaN (scoresArray i)) eqn:Hnan; [done|]. exfalso.
    assert (exists j, j ∈ snd best) as [j Hj]; [|rewrite Hempty in Hj; by apply elem_of_nil in Hj].
    destruct Hatt as [Hworst|(j & Hj & Heq)].
    + exists i. apply Hmem. split; [done|].
      apply (AppFacts.noWorse_antisym useMinimax); [|by apply Hlow].
      rewrite Hworst. by apply AppFacts.noWorse_worst.
    + exists j. apply Hmem. split; [done|]. rewrite <- Heq.
      apply (AppFacts.noWorse_antisym useMinimax); by apply AppFacts.noWorse_refl.
  - intros Hall. destruct (snd best) as [|i l] eqn:Hbest; [done|]. exfalso.
    assert (i ∈ i :: l) as Hi by apply list_elem_of_here.
    apply Hmem in Hi as [Hi Heq].
    apply (AppFacts.eqb_noWorse useMinimax) in Heq as [Heq _].
    apply AppFacts.noWorse_not_NaN in Heq as [Hnum _]. rewrite (Hall i Hi) in Hnum. done.
Qed.

(** X14.  The search for the best score keeps no index exactly when every
    one of the scores is [NaN], which covers an empty guess table; a score
    that is a number, infinite or not, is enough for an index to be kept,
    and every index kept is an index of the guess table. *)
Theorem findBest_empty_iff_all_NaN (useMinimax : bool) (scoresArray : nat -> float64) :
  (snd (findBest DATA useMinimax scoresArray) = []
   <-> forall i, (i < N_TOTAL_GUESSES DATA)%nat -> F64.isNaN (scoresArray i) = true)
  /\ forall i, i ∈ snd (findBest DATA useMinimax scoresArray) ->
               (i < N_TOTAL_GUESSES DATA)%nat /\ F64.isNaN (scoresArray i) = false.
Proof.
  split; [apply findBest_keeps_none|]. intros i Hi.
  apply (AppFacts.findBest_extremal DATA useMinimax scoresArray) in Hi as (? & ? & _). by split.
Qed.

(** A list of numbers has a largest. *)
Lemma largest_exists (e : nat -> float64) (l : list nat) :
  l <> [] -> (forall i, i ∈ l -> F64.isNaN (e i) = false) ->
  exists i, i ∈ l /\ forall j, j ∈ l -> F64.leb (e j) (e i) = true.
Proof.
  induction l as [|x l IH]; [done|]. intros _ Hnum.
  destruct l as [|y l].
  - exists x. split; [apply list_elem_of_here|]. intros j Hj.
    apply list_elem_of_singleton in Hj as ->. apply F64Facts.leb_refl, Hnum, list_elem_of_here.
  - destruct IH as (m & Hm & Hmax); [done|intros i Hi; by apply Hnum, list_elem_of_further|].
    destruct (F64.ltb (e m) (e x)) eqn:Hlt.
    + exists x. split; [apply list_elem_of_here|]. intros j Hj.
      apply elem_of_cons in Hj as [->|Hj];
        [apply F64Facts.leb_refl, Hnum, list_elem_of_here|].
      apply (F64Facts.leb_trans _ (e m)); [by apply Hmax|by apply F64Facts.ltb_leb].
    + exists m. split; [by apply list_elem_of_further|]. intros j Hj.
      apply elem_of_cons in Hj as [->|Hj]; [|by apply Hmax].
      apply F64Facts.ltb_false_leb; [|apply Hnum, list_elem_of_here|done].
      by apply Hnum, list_elem_of_further.
Qed.

(** Tie-break B keeps a list that is not empty and is part of the tied
    list. *)
Lemma answerTieBreak_survivors (tied : list nat) (w : World) :
  (N_TOTAL_GUESSES DATA <= length (isPossibleAnswer (HEAP w)))%nat ->
  exists survivors,
    answerTieBreak DATA tied w = Some survivors
    /\ (forall i, i ∈ survivors -> i ∈ tied)
    /\ (tied <> [] -> survivors <> []).
Proof.
  intros Hmask. unfold answerTieBreak.
  destruct (1 <? length tied)%nat; [|by exists tied].
  rewrite (AppFacts.heapView_in_block IsPossibleAnswerPtr _ 0 _
             (take (N_TOTAL_GUESSES DATA) (isPossibleAnswer (HEAP w)))).
  2:{ unfold Int32Array.
      assert ((0 <=? 0) && (0 <=? Z.of_nat (N_TOTAL_GUESSES DATA))
              && (0 + Z.of_nat (N_TOTAL_GUESSES DATA)
                  <=? Z.of_nat (length (isPossibleAnswer (HEAP w)))) = true) as ->
        by (rewrite !andb_true_iff, !Z.leb_le; lia).
      by rewrite Nat2Z.id, drop_0. }
  cbn [mbind option_bind]. set (answers := List.filter _ tied).
  destruct (0 <? length answers)%nat eqn:Hany; [|by exists tied].
  exists answers. split; [done|]. split.
  - intros i Hi. by apply AppFacts.elem_of_List_filter in Hi as [? _].
  - intros _ Hnil. rewrite Hnil in Hany. discriminate Hany.
Qed.

(** X15.  With a guess table that is not empty, five integers per guess in
    the flat table, a mask entry per guess and no [NaN] among the scores of
    either metric, [calculateBestGuess] on a candidate list that is not a
    singleton returns: it proposes the word of an index of the guess table
    whose primary score is extremal, and has cleared the calculating flag. *)
Theorem calculateBestGuess_returns (w : World) :
  let n := length (currentCandidates (STATE w)) in
  let primary :=
    _cpp_calculate_scores_wasm (guessesFlat (HEAP w)) (N_TOTAL_GUESSES DATA)
      (currentCandidatesA (HEAP w)) n (if (n <? 31)%nat then 1 else 0) in
  let entropy :=
    _cpp_calculate_scores_wasm (guessesFlat (HEAP w)) (N_TOTAL_GUESSES DATA)
      (currentCandidatesA (HEAP w)) n 0 in
  n <> 1%nat ->
  tablesCover DATA w ->
  numbers primary (N_TOTAL_GUESSES DATA) ->
  numbers entropy (N_TOTAL_GUESSES DATA) ->
  exists w' i wordInts,
    calculateBestGuess DATA w = Returned w'
    /\ (i < N_TOTAL_GUESSES DATA)%nat
    /\ extremal (n <? 31)%nat primary (N_TOTAL_GUESSES DATA) i
    /\ wordAtIndex (guessesFlat (HEAP w)) (Z.of_nat i) = Some wordInts
    /\ currentGuessWord (STATE w')
       = Codec.intVecToString (LETTERS DATA) (Some <$> wordInts)
    /\ isCalculating (STATE w') = false.
Proof.
  intros n primary entropy Hmany (Hpos & Hflat & Hmask) Hprimary Hentropy.
  rewrite (AppFacts.calculateBestGuess_scoring DATA w Hmany). cbv zeta.
  unfold primaryPass. cbn [fst snd]. fold n.
  set (w2 := callCalculateScores DATA n _ _).
  change (scores (HEAP w2)) with primary.
  set (best := snd (findBest DATA (n <? 31)%nat primary)).
  destruct (AppFacts.findBest_extremal DATA (n <? 31)%nat primary) as [Hbest _].
  fold best in Hbest.
  assert (best <> []) as Hsome.
  { intros Hnil. pose proof (proj1 (findBest_keeps_none (n <? 31)%nat primary) Hnil) as Hall.
    specialize (Hall 0%nat Hpos). rewrite (Hprimary 0%nat Hpos) in Hall. done. }
  destruct (AppFacts.entropyTieBreak_spec DATA n (n <? 31)%nat best w2) as [Hyes Hno].
  pose proof (AppFacts.entropyTieBreak_frame DATA n (n <? 31)%nat best w2) as Hframe.
  cbv zeta in Hyes, Hno, Hframe.
  change (_cpp_calculate_scores_wasm (guessesFlat (HEAP w2)) (N_TOTAL_GUESSES DATA)
            (currentCandidatesA (HEAP w2)) n 0) with entropy in Hyes.
  destruct (entropyTieBreak DATA n (n <? 31)%nat best w2) as [w3 tied]. cbn [fst snd] in *.
  destruct Hframe as (_ & Hflat3 & Hmask3 & _).
  change (guessesFlat (HEAP w2)) with (guessesFlat (HEAP w)) in Hflat3.
  change (isPossibleAnswer (HEAP w2)) with (isPossibleAnswer (HEAP w)) in Hmask3.
  assert (tied <> [] /\ forall i, i ∈ tied -> i ∈ best) as [Htied Hsub].
  { destruct (decide ((n <? 31)%nat = true /\ (1 < length best)%nat)) as [Hcond|Hcond].
    - destruct (Hyes Hcond) as (_ & _ & Hmem).
      destruct (largest_exists entropy best Hsome) as (m & Hm & Hmax).
      { intros i Hi. apply Hentropy. by apply Hbest in Hi as [? _]. }
      split; [|intros i Hi; by apply Hmem in Hi as [? _]].
      intros Hnil. assert (m ∈ tied) as Hin by (apply Hmem; by split).
      rewrite Hnil in Hin. by apply elem_of_nil in Hin.
    - destruct Hno as [_ ->]; [|done].
      destruct (n <? 31)%nat; [right|by left]. apply Nat.nlt_ge. tauto. }
  destruct (answerTieBreak_survivors tied w3) as (survivors & -> & Hsub' & Hne);
    [by rewrite Hmask3|].
  specialize (Hne Htied). destruct survivors as [|i rest]; [done|].
  assert (i ∈ best) as Hi by (apply Hsub, Hsub', list_elem_of_here).
  apply Hbest in Hi as Hext. destruct Hext as [Hlt _].
  assert (exists wordInts,
             Int32Array (guessesFlat (HEAP w)) (Z.of_nat i * 5) 5 = Some wordInts)
    as [wordInts Hword].
  { unfold Int32Array.
    assert ((0 <=? Z.of_nat i * 5) && (0 <=? 5)
            && (Z.of_nat i * 5 + 5 <=? Z.of_nat (length (guessesFlat (HEAP w)))) = true) as ->
      by (rewrite !andb_true_iff, !Z.leb_le; lia).
    eauto. }
  unfold finalGuessSelection, wordAtIndex. cbn [head]. cbv zeta.
  rewrite Hflat3, (AppFacts.heapView_in_block GuessesFlatPtr _ _ _ _ Hword).
  eexists _, i, wordInts. split; [reflexivity|]. split; [done|]. split; [by apply Hbest|].
  split; [exact Hword|]. by split.
Qed.

(** X16.  When [handleResetApp] returns, the game is on again with the
    initial candidates, the word SOARE, five gray tiles and an empty history,
    from whatever state, terminal or not; the calculating flag, buffer B, the
    scores and the call log are as they were, and the cells of buffer A
    behind the candidates too.  A second reset changes nothing more. *)
Theorem handleResetApp_restores (w w' : World) :
  handleResetApp DATA w = Returned w' ->
  STATE w' = mkState (INITIAL_CANDIDATE_START_POSITIONS DATA) "SOARE"
                     ["_"; "_"; "_"; "_"; "_"]%string [] false (isCalculating (STATE w))
  /\ drop (length (INITIAL_CANDIDATE_START_POSITIONS DATA)) (currentCandidatesA (HEAP w'))
     = drop (length (INITIAL_CANDIDATE_START_POSITIONS DATA)) (currentCandidatesA (HEAP w))
  /\ currentCandidatesB (HEAP w') = currentCandidatesB (HEAP w)
  /\ scores (HEAP w') = scores (HEAP w)
  /\ calls w' = calls w
  /\ handleResetApp DATA w' = Returned w'.
Proof.
  unfold handleResetApp at 1. cbn [STATE HEAP withState currentCandidates currentCandidatesA].
  destruct (HEAP32_set _ (currentCandidatesA (HEAP w))) as [bufA|] eqn:Hset; [|done].
  intros [= <-]. pose proof (HEAP32_set_prefix _ _ _ Hset) as (Htake & Hdrop & Hlen).
  split; [done|]. split; [done|]. split; [done|]. split; [done|]. split; [done|].
  unfold handleResetApp.
  cbn [STATE HEAP withState withHeap setCurrentCandidatesA currentCandidates
       currentCandidatesA isCalculating].
  assert (HEAP32_set (INITIAL_CANDIDATE_START_POSITIONS DATA) bufA = Some bufA) as ->.
  { unfold HEAP32_set in Hset |- *.
    destruct (Nat.leb_spec (length (INITIAL_CANDIDATE_START_POSITIONS DATA))
                (length (currentCandidatesA (HEAP w)))); [|done].
    injection Hset as <-. rewrite length_app, length_drop.
    destruct (Nat.leb_spec (length (INITIAL_CANDIDATE_START_POSITIONS DATA))
                (length (INITIAL_CANDIDATE_START_POSITIONS DATA)
                 + (length (currentCandidatesA (HEAP w))
                    - length (INITIAL_CANDIDATE_START_POSITIONS DATA)))); [|lia].
    by rewrite drop_app_length. }
  reflexivity.
Qed.


End Game.

(** *** The six-word game again *)

Import Example.

(** After SOARE was marked all green the game is over: a further submission
    and a click change nothing. *)
Lemma guarded_events_change_nothing_witness :
  let over := worldOf (handleSubmitFeedback (Module := module) data None soareAllGreen) in
  handleSubmitFeedback (Module := module) data None over = Returned over
  /\ handleTileClick 0 over = Some over.
Proof.
  intros over.
  destruct (guarded_events_change_nothing (Module := module) data None 0 over) as [Hsubmit Hclick].
  split; [apply Hsubmit; right; left; reflexivity|apply Hclick; reflexivity].
Defined.

Lemma submission_appends_history_witness :
  history (STATE (worldOf (handleSubmitFeedback (Module := module) data None slateAgainstCrane)))
  = [("SLATE"%string, ["_"; "_"; "G"; "_"; "G"]%string)].
Proof.
  exact (submission_appends_history (Module := module) data None slateAgainstCrane
           eq_refl eq_refl eq_refl).
Defined.

Lemma candidates_mirrored_at_start_witness :
  (exists w', initializeWasmMemory data initialWorld = Returned w' /\ candidatesMirrored w')
  /\ (exists w', handleResetApp data started = Returned w' /\ candidatesMirrored w').
Proof.
  assert (Forall int32 (INITIAL_CANDIDATE_START_POSITIONS data)) as Hint
    by (repeat constructor; unfold int32; lia).
  destruct (candidates_mirrored_at_start data initialWorld Hint) as [Hinit _].
  destruct (candidates_mirrored_at_start data started Hint) as [_ Hreset].
  assert (length (INITIAL_CANDIDATE_START_POSITIONS data) <= N_TOTAL_GUESSES data)%nat
    as Hfit by (simpl; lia).
  assert (length (INITIAL_CANDIDATE_START_POSITIONS data)
          <= length (currentCandidatesA (HEAP started)))%nat as Hfit' by (simpl; lia).
  destruct (Hinit Hfit) as (w1 & Hrun1 & Hmirror1 & _).
  destruct (Hreset Hfit') as (w2 & Hrun2 & Hmirror2 & _).
  split; [exists w1|exists w2]; by split.
Defined.


(** SLATE answered as CRANE answers ends the game on one candidate; the
    candidate list still holds the three candidates. *)
Lemma ending_submission_keeps_candidates_witness :
  currentCandidates
    (STATE (worldOf (handleSubmitFeedback (Module := module) data None slateAgainstCrane)))
  = [5; 10; 15].
Proof.
  exact (proj1 (ending_submission_keeps_candidates (Module := module) data None slateAgainstCrane
                  eq_refl eq_refl)).
Defined.

Lemma findBest_empty_iff_all_NaN_witness :
  snd (findBest data true (fun _ => F64.NaN)) = []
  /\ (2 < N_TOTAL_GUESSES data)%nat.
Proof.
  destruct (findBest_empty_iff_all_NaN data true (fun _ => F64.NaN)) as [Hempty _].
  destruct (findBest_empty_iff_all_NaN data true
              (fun i => default F64.NaN (minimaxScores !! i))) as [_ Hkept].
  split.
  - apply Hempty. intros i _. reflexivity.
  - apply (Hkept 2%nat). vm_compute. do 2 right. left.
Defined.

(** The first calculation of the six-word game returns. *)
Lemma calculateBestGuess_returns_witness :
  exists w', calculateBestGuess (Module := module) data initialized = Returned w'
             /\ isCalculating (STATE w') = false.
Proof.
  assert (length (currentCandidates (STATE initialized)) <> 1%nat) as Hmany by (simpl; lia).
  assert (tablesCover data initialized) as Hcover by (repeat split; simpl; lia).
  assert (forall flag, numbers (Kernel.recorded_scores minimaxScores entropyScores
                                  (guessesFlat (HEAP initialized)) (N_TOTAL_GUESSES data)
                                  (currentCandidatesA (HEAP initialized)) 3 flag)
                         (N_TOTAL_GUESSES data)) as Hnumbers.
  { intros flag i Hi. unfold Kernel.recorded_scores.
    destruct (flag =? 0); do 6 (destruct i as [|i]; [reflexivity|]); simpl in Hi; lia. }
  destruct (calculateBestGuess_returns (Module := module) data initialized Hmany Hcover
              (Hnumbers 1) (Hnumbers 0)) as (w' & i & wordInts & Hrun & _ & _ & _ & _ & Hidle).
  exists w'. split; [exact Hrun|exact Hidle].
Defined.

Lemma handleResetApp_restores_witness :
  currentGuessWord (STATE afterReset) = "SOARE"%string
  /\ handleResetApp data afterReset = Returned afterReset.
Proof.
  destruct (handleResetApp_restores data started afterReset eq_refl) as (HS & _ & _ & _ & _ & Hagain).
  split; [by rewrite HS|exact Hagain].
Defined.


End GameFacts.
